(** * weather-tracker: search classifier, provider client, normalizer and store

    A shallow embedding of [utils/searchDetector.js], [services/weatherApi.js]
    and [stores/weather.js], and the properties of the specification that are
    checked against them. *)

From Stdlib Require Import ZArith NArith Lia Ascii String DecimalString.
From stdpp Require Import base option list gmap.

(** ** JavaScript strings and primitive values *)

Module Js.

(** A JavaScript string is a sequence of UTF-16 code units. *)
Abbreviation jsstring := (list N).

(** The code units of an ASCII literal of the source. *)
Definition js (s : string) : jsstring := N_of_ascii <$> list_ascii_of_string s.

Definition SPACE : N := 32.
Definition HYPHEN : N := 45.
Definition COLON : N := 58.
Definition LT : N := 60.
Definition GT : N := 62.

(** WhiteSpace and LineTerminator of ECMAScript: what [\s] matches and what
    [String.prototype.trim] strips. *)
Definition is_ws (c : N) : bool :=
  ((9 <=? c) && (c <=? 13) || (c =? 32) || (c =? 160) || (c =? 5760)
   || (8192 <=? c) && (c <=? 8202) || (c =? 8232) || (c =? 8233)
   || (c =? 8239) || (c =? 8287) || (c =? 12288) || (c =? 65279))%N.

(** [\d] *)
Definition is_digit (c : N) : bool := ((48 <=? c) && (c <=? 57))%N.

(** [[A-Za-z]] *)
Definition is_alpha (c : N) : bool :=
  ((65 <=? c) && (c <=? 90) || (97 <=? c) && (c <=? 122))%N.

Definition is_ascii (c : N) : bool := (c <? 128)%N.

(** What [toLowerCase] does to a code unit below 128. *)
Definition ascii_lower (c : N) : N :=
  if ((65 <=? c) && (c <=? 90))%N then (c + 32)%N else c.

(** [s.trimStart()]: the leading white space is dropped. *)
Fixpoint trimStart (s : jsstring) : jsstring :=
  match s with
  | c :: r => if is_ws c then trimStart r else s
  | [] => []
  end.

(** [s.trimEnd()]: the trailing white space is dropped. *)
Fixpoint trimEnd (s : jsstring) : jsstring :=
  match s with
  | c :: r =>
      match trimEnd r with
      | [] => if is_ws c then [] else [c]
      | r' => c :: r'
      end
  | [] => []
  end.

(** [s.trim()] *)
Definition trim (s : jsstring) : jsstring := trimEnd (trimStart s).

(** [s.substring(0, n)] for [0 <= n] *)
Definition substring0 (n : nat) (s : jsstring) : jsstring := take n s.

(** [s.split(sep)[0]]: what stands before the first [sep] (all of [s] when
    there is none). *)
Fixpoint split_0 (sep : N) (s : jsstring) : jsstring :=
  match s with
  | c :: r => if (c =? sep)%N then [] else c :: split_0 sep r
  | [] => []
  end.

(** What stands after the first [sep]; [None] when there is none. *)
Fixpoint after_sep (sep : N) (s : jsstring) : option jsstring :=
  match s with
  | c :: r => if (c =? sep)%N then Some r else after_sep sep r
  | [] => None
  end.

(** [s.split(sep)[1]]: [None] stands for [undefined]. *)
Definition split_1 (sep : N) (s : jsstring) : option jsstring :=
  split_0 sep <$> after_sep sep s.

(** [hay.includes(needle)] on strings. *)
Fixpoint str_includes (needle hay : jsstring) : bool :=
  bool_decide (take (length needle) hay = needle)
  || match hay with
     | _ :: r => str_includes needle r
     | [] => false
     end.

(** Code-unit order of strings, the [<] of JavaScript on two strings. *)
Fixpoint str_lt (a b : jsstring) : bool :=
  match a, b with
  | [], [] => false
  | [], _ :: _ => true
  | _ :: _, [] => false
  | x :: a', y :: b' => (x <? y)%N || (x =? y)%N && str_lt a' b'
  end.

(** The decimal numeral of an integer, as [String(n)] and template literals
    print it (below 10^21 in magnitude, where JavaScript turns to the
    exponent notation). *)
Definition num_to_string (z : Z) : jsstring :=
  match z with
  | Z0 => js "0"
  | Zpos p => js (NilEmpty.string_of_uint (Pos.to_uint p))
  | Zneg p => HYPHEN :: js (NilEmpty.string_of_uint (Pos.to_uint p))
  end.

(** The primitive values that reach the functions below. A number is an
    integer here: the provider sends integer percentages and the clock
    integer milliseconds. *)
Inductive jsval :=
| JUndefined
| JNull
| JBool (b : bool)
| JNum (z : Z)
| JNaN
| JStr (s : jsstring).

(** [String(v)] *)
Definition to_String (v : jsval) : jsstring :=
  match v with
  | JUndefined => js "undefined"
  | JNull => js "null"
  | JBool true => js "true"
  | JBool false => js "false"
  | JNum z => num_to_string z
  | JNaN => js "NaN"
  | JStr s => s
  end.

(** ToBoolean *)
Definition truthy (v : jsval) : bool :=
  match v with
  | JUndefined | JNull | JNaN => false
  | JBool b => b
  | JNum z => negb (z =? 0)%Z
  | JStr s => negb (bool_decide (s = []))
  end.

(** [a || b] *)
Definition js_or (a b : jsval) : jsval := if truthy a then a else b.

(** [parseInt(s)], radix absent: leading white space, a sign, a [0x] prefix,
    then the longest run of digits; [None] stands for [NaN]. *)
Definition digit_value (radix : N) (c : N) : option N :=
  let v :=
    if is_digit c then Some (c - 48)%N
    else if ((97 <=? c) && (c <=? 122))%N then Some (c - 87)%N
    else if ((65 <=? c) && (c <=? 90))%N then Some (c - 55)%N
    else None in
  v ≫= λ d, if (d <? radix)%N then Some d else None.

Fixpoint parse_digits (radix : N) (acc : option N) (s : jsstring) : option N :=
  match s with
  | c :: r =>
      match digit_value radix c with
      | Some d => parse_digits radix (Some (default 0 acc * radix + d)%N) r
      | None => acc
      end
  | [] => acc
  end.

Definition parseInt (s : jsstring) : option Z :=
  let s1 := trimStart s in
  let '(neg, s2) :=
    match s1 with
    | 45%N :: r => (true, r)
    | 43%N :: r => (false, r)
    | _ => (false, s1)
    end in
  let '(radix, s3) :=
    match s2 with
    | 48%N :: 120%N :: r | 48%N :: 88%N :: r => (16%N, r)
    | _ => (10%N, s2)
    end in
  (λ n, if neg then (- Z.of_N n)%Z else Z.of_N n) <$> parse_digits radix None s3.

End Js.

(** ** Regular expressions without iteration

    The patterns of the classifier are anchored at both ends and use only
    classes, concatenation, alternatives and bounded repetition. [test]
    decides a whole-string match by derivatives. *)

Module Regex.
Import Js.

Inductive regex :=
| Void
| Eps
| Class (p : N → bool)
| Cat (r1 r2 : regex)
| Alt (r1 r2 : regex).

Fixpoint nullable (r : regex) : bool :=
  match r with
  | Void => false
  | Eps => true
  | Class _ => false
  | Cat r1 r2 => nullable r1 && nullable r2
  | Alt r1 r2 => nullable r1 || nullable r2
  end.

Fixpoint deriv (c : N) (r : regex) : regex :=
  match r with
  | Void => Void
  | Eps => Void
  | Class p => if p c then Eps else Void
  | Cat r1 r2 =>
      if nullable r1 then Alt (Cat (deriv c r1) r2) (deriv c r2)
      else Cat (deriv c r1) r2
  | Alt r1 r2 => Alt (deriv c r1) (deriv c r2)
  end.

(** [/^r$/.test(s)] *)
Fixpoint test (r : regex) (s : jsstring) : bool :=
  match s with
  | [] => nullable r
  | c :: s' => test (deriv c r) s'
  end.

(** [r?] *)
Definition opt (r : regex) : regex := Alt r Eps.

(** [r{n}] *)
Fixpoint times (n : nat) (r : regex) : regex :=
  match n with
  | O => Eps
  | S n' => Cat r (times n' r)
  end.

(** [r{0,k}] *)
Fixpoint upto (k : nat) (r : regex) : regex :=
  match k with
  | O => Eps
  | S k' => opt (Cat r (upto k' r))
  end.

(** [r{m,n}] for [m <= n] *)
Definition range (m n : nat) (r : regex) : regex :=
  Cat (times m r) (upto (n - m) r).

(** The strings a pattern stands for. *)
Fixpoint lang (r : regex) (s : jsstring) : Prop :=
  match r with
  | Void => False
  | Eps => s = []
  | Class p => ∃ c, s = [c] ∧ p c = true
  | Cat r1 r2 => ∃ s1 s2, s = s1 ++ s2 ∧ lang r1 s1 ∧ lang r2 s2
  | Alt r1 r2 => lang r1 s ∨ lang r2 s
  end.

End Regex.

(** ** utils/searchDetector.js *)

Module SearchDetector.
Import Js Regex.

(** [SEARCH_TYPES] *)
Inductive SearchType := ZIP_CODE | CITY | REGION | UNKNOWN.

(** The string each member of [SEARCH_TYPES] holds. *)
Definition type_name (t : SearchType) : jsstring :=
  match t with
  | ZIP_CODE => js "zip_code"
  | CITY => js "city"
  | REGION => js "region"
  | UNKNOWN => js "unknown"
  end.

Infix "+>" := Cat (at level 60, right associativity).

Definition d : regex := Class is_digit.
Definition a : regex := Class is_alpha.

(** [PATTERNS] *)
Definition US_ZIP : regex :=
  times 5 d +> opt (Class (N.eqb HYPHEN) +> times 4 d).

Definition CANADIAN_POSTAL : regex :=
  a +> d +> a +> opt (Class (λ c, (c =? SPACE)%N || (c =? HYPHEN)%N)) +> d +> a +> d.

Definition UK_POSTCODE : regex :=
  range 1 2 a +> d +> opt (Class (λ c, is_alpha c || is_digit c))
  +> opt (Class (N.eqb SPACE)) +> d +> times 2 a.

Definition NUMERIC_POSTAL : regex := range 4 6 d.

Definition US_STATES : list jsstring := js <$>
  [ "alabama"; "al"; "alaska"; "ak"; "arizona"; "az"; "arkansas"; "ar";
    "california"; "ca"; "colorado"; "co"; "connecticut"; "ct"; "delaware"; "de";
    "florida"; "fl"; "georgia"; "ga"; "hawaii"; "hi"; "idaho"; "id";
    "illinois"; "il"; "indiana"; "in"; "iowa"; "ia"; "kansas"; "ks";
    "kentucky"; "ky"; "louisiana"; "la"; "maine"; "me"; "maryland"; "md";
    "massachusetts"; "ma"; "michigan"; "mi"; "minnesota"; "mn"; "mississippi"; "ms";
    "missouri"; "mo"; "montana"; "mt"; "nebraska"; "ne"; "nevada"; "nv";
    "new hampshire"; "nh"; "new jersey"; "nj"; "new mexico"; "nm"; "new york"; "ny";
    "north carolina"; "nc"; "north dakota"; "nd"; "ohio"; "oh"; "oklahoma"; "ok";
    "oregon"; "or"; "pennsylvania"; "pa"; "rhode island"; "ri"; "south carolina"; "sc";
    "south dakota"; "sd"; "tennessee"; "tn"; "texas"; "tx"; "utah"; "ut";
    "vermont"; "vt"; "virginia"; "va"; "washington"; "wa"; "west virginia"; "wv";
    "wisconsin"; "wi"; "wyoming"; "wy"; "district of columbia"; "dc" ]%string.

Definition COUNTRIES : list jsstring := js <$>
  [ "united states"; "usa"; "us"; "canada"; "mexico"; "united kingdom"; "uk";
    "england"; "scotland"; "wales"; "ireland"; "france"; "germany"; "italy";
    "spain"; "portugal"; "netherlands"; "belgium"; "switzerland"; "austria";
    "australia"; "new zealand"; "japan"; "china"; "india"; "brazil"; "argentina";
    "south africa"; "egypt"; "russia"; "sweden"; "norway"; "denmark"; "finland";
    "poland"; "czech republic"; "greece"; "turkey"; "south korea"; "singapore";
    "thailand"; "vietnam"; "philippines"; "indonesia"; "malaysia" ]%string.

(** [list.includes(x)] on an array of strings. *)
Definition includes (l : list jsstring) (x : jsstring) : bool := bool_decide (x ∈ l).

Definition isZipCode (input : jsstring) : bool :=
  test US_ZIP input
  || test CANADIAN_POSTAL input
  || test UK_POSTCODE input
  || test NUMERIC_POSTAL input.

Record SearchResult := { type : SearchType; value : jsstring }.

Section WithPlatform.

(** [String.prototype.toLowerCase] follows the Unicode case tables of the
    engine; the functions below take it as given. *)
Variable toLowerCase : jsstring → jsstring.

Definition isRegion (input : jsstring) : bool :=
  let normalized := toLowerCase input in
  if includes US_STATES normalized then true
  else if includes COUNTRIES normalized then true
  else false.

Definition detectSearchType (input : jsval) : SearchResult :=
  match input with
  | JNull | JUndefined => {| type := UNKNOWN; value := [] |}
  | JStr input =>
      let trimmed := trim input in
      if bool_decide (trimmed = []) then {| type := UNKNOWN; value := [] |}
      else if isZipCode trimmed then {| type := ZIP_CODE; value := trimmed |}
      else if isRegion trimmed then {| type := REGION; value := trimmed |}
      else {| type := CITY; value := trimmed |}
  | _ => {| type := UNKNOWN; value := to_String input |}
  end.

End WithPlatform.

(** [.replace(/<[^>]*>/g, '')]: scanning from the left, a [<] that has a [>]
    somewhere after it is removed together with everything up to the first
    such [>]; a [<] with no [>] after it stays. [inside] says that the scan
    is within a match. *)
Fixpoint strip_tags_from (inside : bool) (s : jsstring) : jsstring :=
  match s with
  | [] => []
  | c :: r =>
      if inside then strip_tags_from (negb (c =? GT)%N) r
      else if (c =? LT)%N && bool_decide (GT ∈ r) then strip_tags_from true r
      else c :: strip_tags_from false r
  end.

Definition strip_tags (s : jsstring) : jsstring := strip_tags_from false s.

(** The class of the second [replace]: less-than, greater-than, single quote,
    double quote, backtick, semicolon and backslash, that is code units
    60, 62, 39, 34, 96, 59 and 92. *)
Definition is_special (c : N) : bool :=
  ((c =? 60) || (c =? 62) || (c =? 39) || (c =? 34) || (c =? 96) || (c =? 59)
   || (c =? 92))%N.

(** The second [replace]: every code unit of that class is removed. *)
Definition strip_special (s : jsstring) : jsstring :=
  List.filter (λ c, negb (is_special c)) s.

(** [.replace(/\s+/g, ' ')]: every maximal run of white space becomes one
    space. [in_ws] says that the previous code unit was white space. *)
Fixpoint collapse_ws_from (in_ws : bool) (s : jsstring) : jsstring :=
  match s with
  | [] => []
  | c :: r =>
      if is_ws c then
        if in_ws then collapse_ws_from true r else SPACE :: collapse_ws_from true r
      else c :: collapse_ws_from false r
  end.

Definition collapse_ws (s : jsstring) : jsstring := collapse_ws_from false s.

Definition MAX_LENGTH : nat := 100.

(** The body of [sanitizeSearchInput] once [input] is a string. *)
Definition sanitize_string (input : jsstring) : jsstring :=
  let sanitized := trim (collapse_ws (strip_special (strip_tags input))) in
  if (MAX_LENGTH <? length sanitized)%nat
  then trim (substring0 MAX_LENGTH sanitized)
  else sanitized.

Definition sanitizeSearchInput (input : jsval) : jsstring :=
  match input with
  | JNull | JUndefined => []
  | _ => sanitize_string (to_String input)
  end.

Inductive Validation :=
| Valid
| Invalid (error : jsstring).

Definition validateSearchInput (input : jsval) : Validation :=
  match input with
  | JNull | JUndefined => Invalid (js "Search input is required")
  | JStr s =>
      if bool_decide (s = []) then Invalid (js "Search input is required")
      else
        let sanitized := sanitizeSearchInput input in
        if (length sanitized =? 0)%nat then Invalid (js "Search input is required")
        else if (length sanitized <? 2)%nat
        then Invalid (js "Search input must be at least 2 characters")
        else Valid
  | _ => Invalid (js "Search input must be a string")
  end.

End SearchDetector.

(** ** The clock of the caller

    [new Date()] is read twice by the normalizer: [getHours()] gives the hour
    in the caller's time zone, [toISOString()] the calendar date in UTC. *)

Module Date.
Import Js.
Local Open Scope Z_scope.

(** [nowMs] is the time value (milliseconds since the epoch, UTC), [localTZA]
    the offset of the caller's zone, in milliseconds to add to UTC. *)
Record Clock := { nowMs : Z; localTZA : Z }.

Definition msPerHour : Z := 3600000.
Definition msPerDay : Z := 86400000.

(** Year, month and day of the month of a day number counted from the
    epoch, in the proleptic Gregorian calendar. *)
Definition civil_from_days (days : Z) : Z * Z * Z :=
  let z := days + 719468 in
  let era := z / 146097 in
  let doe := z - era * 146097 in
  let yoe := (doe - doe / 1460 + doe / 36524 - doe / 146096) / 365 in
  let doy := doe - (365 * yoe + yoe / 4 - yoe / 100) in
  let mp := (5 * doy + 2) / 153 in
  let d := doy - (153 * mp + 2) / 5 + 1 in
  let m := if mp <? 10 then mp + 3 else mp - 9 in
  let y := yoe + era * 400 + (if m <=? 2 then 1 else 0) in
  (y, m, d).

(** A natural number in decimal, padded with zeros to [width] digits. *)
Definition pad (width : nat) (n : Z) : jsstring :=
  let s := num_to_string n in
  replicate (width - length s) 48%N ++ s.

(** The date part of the ISO format: four digits for the years 0 to 9999,
    a sign and six digits for the others. *)
Definition iso_date (ymd : Z * Z * Z) : jsstring :=
  let '(y, m, d) := ymd in
  let year :=
    if (0 <=? y) && (y <=? 9999) then pad 4 y
    else (if y <? 0 then 45%N else 43%N) :: pad 6 (Z.abs y) in
  year ++ [HYPHEN] ++ pad 2 m ++ [HYPHEN] ++ pad 2 d.

(** [now.getHours()] *)
Definition getHours (now : Clock) : Z := ((nowMs now + localTZA now) / msPerHour) mod 24.

(** [now.toISOString().split('T')[0]] *)
Definition toISOString_date (now : Clock) : jsstring :=
  iso_date (civil_from_days (nowMs now / msPerDay)).

(** The calendar date in the caller's zone, in the same format; the code
    never computes it, the specification speaks of it. *)
Definition local_date (now : Clock) : jsstring :=
  iso_date (civil_from_days ((nowMs now + localTZA now) / msPerDay)).

End Date.

(** ** services/weatherApi.js *)

Module WeatherApi.
Import Js.

(** The [type] of a [WeatherApiError]. *)
Inductive ErrorType := network | not_found | api_error | validation | config.

(** What a [throw] or a rejected promise carries. *)
#[warnings="-register-all"]
Inductive Thrown :=
| WeatherApiError (message : jsstring) (type : ErrorType) (originalError : option Thrown)
| TypeError (message : jsstring)
| OtherError (message : jsstring).

Definition message (e : Thrown) : jsstring :=
  match e with
  | WeatherApiError m _ _ | TypeError m | OtherError m => m
  end.

(** How a call completes: it returns a value or it throws (an [async]
    function: its promise is fulfilled or rejected). *)
Inductive Completion (A : Type) :=
| Return (a : A)
| Throw (e : Thrown).
Arguments Return {A} a.
Arguments Throw {A} e.

Definition bind {A B} (c : Completion A) (k : A → Completion B) : Completion B :=
  match c with
  | Return a => k a
  | Throw e => Throw e
  end.

Notation "x <- c ;; k" := (bind c (λ x, k))
  (at level 100, c at next level, right associativity).

(** The provider's response, as section 6 of the specification gives it. A
    field the code tests before use is optional here. *)
Module Condition.
Record t := { text : jsval; icon : jsval }.
End Condition.

Module RawLocation.
Record t := { name : jsval; region : jsval; country : jsval; tz_id : jsval; localtime : jsval }.
End RawLocation.

Module RawCurrent.
Record t := {
  temp_f : jsval; feelslike_f : jsval; condition : Condition.t; humidity : jsval;
  wind_mph : jsval; wind_dir : jsval; last_updated : jsval }.
End RawCurrent.

Module RawHour.
Record t := {
  time : jsstring; temp_f : jsval; condition : Condition.t;
  chance_of_rain : jsval; chance_of_snow : jsval; wind_mph : jsval; humidity : jsval }.
End RawHour.

Module RawDayStats.
Record t := {
  maxtemp_f : jsval; mintemp_f : jsval; condition : Condition.t;
  daily_chance_of_rain : jsval; daily_chance_of_snow : jsval }.
End RawDayStats.

(** [hour] is [None] when the field is absent or is not an array. *)
Module RawDay.
Record t := { date : jsval; day : RawDayStats.t; hour : option (list RawHour.t) }.
End RawDay.

(** [forecastday] is [None] when the field is absent, [null] or not an array. *)
Module RawForecast.
Record t := { forecastday : option (list RawDay.t) }.
End RawForecast.

Module RawBody.
Record t := {
  location : option RawLocation.t; current : option RawCurrent.t;
  forecast : option RawForecast.t }.
End RawBody.

(** A body that passed the checks of [fetchWeatherData]. *)
Module Data.
Record t := { location : RawLocation.t; current : RawCurrent.t; forecast : RawForecast.t }.
End Data.

(** The normalized records. *)
Module CurrentWeather.
Record t := {
  temperature : jsval; feelsLike : jsval; condition : jsval; conditionIcon : jsval;
  humidity : jsval; windSpeed : jsval; windDirection : jsval; lastUpdated : jsval }.
End CurrentWeather.

Module HourlyEntry.
Record t := {
  time : jsstring; temperature : jsval; condition : jsval; conditionIcon : jsval;
  precipitationChance : jsval; windSpeed : jsval; humidity : jsval }.
End HourlyEntry.

Module DailyEntry.
Record t := {
  date : jsval; highTemp : jsval; lowTemp : jsval; condition : jsval;
  conditionIcon : jsval; precipitationChance : jsval }.
End DailyEntry.

Module Location.
Record t := { city : jsval; region : jsval; country : jsval; timezone : jsval; localtime : jsval }.
End Location.

(** What [await fetch(url)] and [await response.json()] do, as the network
    decides. [None] is a body that parses to a falsy value. *)
Inductive JsonOutcome :=
| JsonRejects (e : Thrown)
| JsonResolves (data : option RawBody.t).

Inductive FetchOutcome :=
| FetchRejects (e : Thrown)
| FetchResolves (status : Z) (json : JsonOutcome).

(** [response.ok] *)
Definition ok (status : Z) : bool := ((200 <=? status) && (status <=? 299))%Z.

Definition MSG_CONFIG : jsstring :=
  js "Unable to connect to weather service. Please check configuration.".
Definition MSG_LOCATION_REQUIRED : jsstring :=
  js "Location is required and must be a valid string.".
Definition MSG_NOT_FOUND : jsstring :=
  js "We couldn't find that location. Please try a different city, zip code, or region.".
Definition MSG_UNAVAILABLE : jsstring :=
  js "Weather service is temporarily unavailable. Please try again later.".
Definition MSG_GENERIC : jsstring := js "Something went wrong. Please try again.".
Definition MSG_INVALID_RESPONSE : jsstring := js "Invalid response from weather service.".
Definition MSG_NETWORK : jsstring :=
  js "Unable to fetch weather data. Please check your internet connection and try again.".

(** [apiKey] is [import.meta.env.VITE_WEATHER_API_KEY]: a string or absent. *)
Definition validateConfig (apiKey : option jsstring) : Completion unit :=
  match apiKey with
  | None => Throw (WeatherApiError MSG_CONFIG config None)
  | Some k =>
      if bool_decide (k = []) || bool_decide (k = js "your_api_key_here")
         || bool_decide (trim k = [])
      then Throw (WeatherApiError MSG_CONFIG config None)
      else Return ()
  end.

(** The status branch of [fetchWeatherData] for a response that is not [ok]. *)
Definition http_error (status : Z) : Thrown :=
  if ((status =? 400) || (status =? 404))%Z then WeatherApiError MSG_NOT_FOUND not_found None
  else if ((status =? 401) || (status =? 403))%Z then WeatherApiError MSG_CONFIG config None
  else if (500 <=? status)%Z then WeatherApiError MSG_UNAVAILABLE api_error None
  else WeatherApiError MSG_GENERIC api_error None.

(** The body of the [try] block. *)
Definition fetch_try (net : FetchOutcome) : Completion Data.t :=
  match net with
  | FetchRejects e => Throw e
  | FetchResolves status json =>
      if negb (ok status) then Throw (http_error status)
      else
        data <- match json with
                | JsonRejects jsonError =>
                    Throw (WeatherApiError MSG_INVALID_RESPONSE validation (Some jsonError))
                | JsonResolves data => Return data
                end;;
        match data with
        | Some {| RawBody.location := Some l; RawBody.current := Some c;
                  RawBody.forecast := Some f |} =>
            Return {| Data.location := l; Data.current := c; Data.forecast := f |}
        | _ => Throw (WeatherApiError MSG_INVALID_RESPONSE validation None)
        end
  end.

(** The [catch] block. *)
Definition fetch_catch (error : Thrown) : Thrown :=
  match error with
  | WeatherApiError _ _ _ => error
  | TypeError _ => WeatherApiError MSG_NETWORK network (Some error)
  | OtherError m =>
      if str_includes (js "fetch") m then WeatherApiError MSG_NETWORK network (Some error)
      else WeatherApiError MSG_GENERIC api_error (Some error)
  end.

(** [fetchWeatherData(location)]; [net] is what the one request of this call
    meets on the network. *)
Definition fetchWeatherData (apiKey : option jsstring) (net : FetchOutcome)
    (location : jsval) : Completion Data.t :=
  _ <- validateConfig apiKey;;
  match location with
  | JStr l =>
      if bool_decide (l = []) || bool_decide (trim l = [])
      then Throw (WeatherApiError MSG_LOCATION_REQUIRED validation None)
      else
        match fetch_try net with
        | Return data => Return data
        | Throw error => Throw (fetch_catch error)
        end
  | _ => Throw (WeatherApiError MSG_LOCATION_REQUIRED validation None)
  end.

Definition transformCurrentWeather (data : Data.t) : CurrentWeather.t :=
  let c := Data.current data in
  {| CurrentWeather.temperature := RawCurrent.temp_f c;
     CurrentWeather.feelsLike := RawCurrent.feelslike_f c;
     CurrentWeather.condition := Condition.text (RawCurrent.condition c);
     CurrentWeather.conditionIcon := Condition.icon (RawCurrent.condition c);
     CurrentWeather.humidity := RawCurrent.humidity c;
     CurrentWeather.windSpeed := RawCurrent.wind_mph c;
     CurrentWeather.windDirection := RawCurrent.wind_dir c;
     CurrentWeather.lastUpdated := RawCurrent.last_updated c |}.

(** The object pushed for one [hour]. *)
Definition hourly_entry (hour : RawHour.t) : HourlyEntry.t :=
  {| HourlyEntry.time := RawHour.time hour;
     HourlyEntry.temperature := RawHour.temp_f hour;
     HourlyEntry.condition := Condition.text (RawHour.condition hour);
     HourlyEntry.conditionIcon := Condition.icon (RawHour.condition hour);
     HourlyEntry.precipitationChance :=
       js_or (js_or (RawHour.chance_of_rain hour) (RawHour.chance_of_snow hour)) (JNum 0);
     HourlyEntry.windSpeed := RawHour.wind_mph hour;
     HourlyEntry.humidity := RawHour.humidity hour |}.

(** [hourlyData] after the two [forEach] loops. *)
Definition collect_hours (forecastDays : list RawDay.t) : list HourlyEntry.t :=
  flat_map (λ day, match RawDay.hour day with
                   | Some hours => hourly_entry <$> hours
                   | None => []
                   end) forecastDays.

(** The callback of [hourlyData.filter]. *)
Definition is_future (currentHour : Z) (currentDate : jsstring)
    (hour : HourlyEntry.t) : Completion bool :=
  let hourDate := split_0 SPACE (HourlyEntry.time hour) in
  match split_1 SPACE (HourlyEntry.time hour) with
  | None => Throw (TypeError (js "Cannot read properties of undefined"))
  | Some t =>
      let hourTime := parseInt (split_0 COLON t) in
      if bool_decide (hourDate = currentDate)
      then Return (match hourTime with
                   | Some h => (currentHour <=? h)%Z
                   | None => false
                   end)
      else Return (str_lt currentDate hourDate)
  end.

(** [array.filter(f)] for a callback that can throw. *)
Fixpoint filterC {A} (f : A → Completion bool) (l : list A) : Completion (list A) :=
  match l with
  | [] => Return []
  | x :: r =>
      b <- f x;;
      r' <- filterC f r;;
      Return (if b then x :: r' else r')
  end.

Definition transformHourlyForecast (now : Date.Clock) (data : Data.t)
    : Completion (list HourlyEntry.t) :=
  match RawForecast.forecastday (Data.forecast data) with
  | None | Some [] => Return []
  | Some forecastDays =>
      let hourlyData := collect_hours forecastDays in
      if (length hourlyData <=? 24)%nat then Return hourlyData
      else
        let currentHour := Date.getHours now in
        let currentDate := Date.toISOString_date now in
        futureHours <- filterC (is_future currentHour currentDate) hourlyData;;
        Return (take 24 futureHours)
  end.

Definition daily_entry (day : RawDay.t) : DailyEntry.t :=
  let s := RawDay.day day in
  {| DailyEntry.date := RawDay.date day;
     DailyEntry.highTemp := RawDayStats.maxtemp_f s;
     DailyEntry.lowTemp := RawDayStats.mintemp_f s;
     DailyEntry.condition := Condition.text (RawDayStats.condition s);
     DailyEntry.conditionIcon := Condition.icon (RawDayStats.condition s);
     DailyEntry.precipitationChance :=
       js_or (js_or (RawDayStats.daily_chance_of_rain s) (RawDayStats.daily_chance_of_snow s))
             (JNum 0) |}.

Definition transformDailyForecast (data : Data.t) : list DailyEntry.t :=
  match RawForecast.forecastday (Data.forecast data) with
  | None => []
  | Some forecastDays => daily_entry <$> forecastDays
  end.

Definition transformLocation (data : Data.t) : Location.t :=
  let l := Data.location data in
  {| Location.city := RawLocation.name l;
     Location.region := RawLocation.region l;
     Location.country := RawLocation.country l;
     Location.timezone := RawLocation.tz_id l;
     Location.localtime := RawLocation.localtime l |}.

Definition getCurrentWeather (apiKey : option jsstring) (net : FetchOutcome)
    (location : jsval) : Completion (CurrentWeather.t * Location.t) :=
  data <- fetchWeatherData apiKey net location;;
  Return (transformCurrentWeather data, transformLocation data).

Definition getHourlyForecast (apiKey : option jsstring) (net : FetchOutcome)
    (now : Date.Clock) (location : jsval) : Completion (list HourlyEntry.t * Location.t) :=
  data <- fetchWeatherData apiKey net location;;
  hourly <- transformHourlyForecast now data;;
  Return (hourly, transformLocation data).

Definition getDailyForecast (apiKey : option jsstring) (net : FetchOutcome)
    (location : jsval) : Completion (list DailyEntry.t * Location.t) :=
  data <- fetchWeatherData apiKey net location;;
  Return (transformDailyForecast data, transformLocation data).

End WeatherApi.

(** ** stores/weather.js *)

Module WeatherStore.
Import Js WeatherApi.

Definition DEFAULT_LOCATION : jsstring := js "San Francisco".
Definition STORAGE_KEY : jsstring := js "weather_last_location".

Record State := {
  currentWeather : option CurrentWeather.t;
  hourlyForecast : list HourlyEntry.t;
  dailyForecast : list DailyEntry.t;
  location : option Location.t;
  isLoading : bool;
  error : option jsstring;
  lastUpdated : option Z }.

(** [state: () => ({ ... })] *)
Definition initial_state : State :=
  {| currentWeather := None; hourlyForecast := []; dailyForecast := [];
     location := None; isLoading := false; error := None; lastUpdated := None |}.

(** [localStorage]: the stored items, whether an access throws (private
    browsing, quota), and the writes made so far, latest first. *)
Record Storage := {
  items : gmap jsstring jsstring;
  throws : bool;
  written : list (jsstring * jsstring) }.

Definition setItem (key value : jsstring) (ls : Storage) : Completion Storage :=
  if throws ls then Throw (OtherError (js "The operation is insecure."))
  else Return {| items := <[key := value]> (items ls); throws := throws ls;
                 written := (key, value) :: written ls |}.

Definition getItem (key : jsstring) (ls : Storage) : Completion (option jsstring) :=
  if throws ls then Throw (OtherError (js "The operation is insecure."))
  else Return (items ls !! key).

(** The store together with the durable storage its actions reach. *)
Record Store := { state : State; localStorage : Storage }.

Definition with_state (f : State → State) (s : Store) : Store :=
  {| state := f (state s); localStorage := localStorage s |}.

Definition set_isLoading (b : bool) (s : State) : State :=
  {| currentWeather := currentWeather s; hourlyForecast := hourlyForecast s;
     dailyForecast := dailyForecast s; location := location s;
     isLoading := b; error := error s; lastUpdated := lastUpdated s |}.

Definition set_error (e : option jsstring) (s : State) : State :=
  {| currentWeather := currentWeather s; hourlyForecast := hourlyForecast s;
     dailyForecast := dailyForecast s; location := location s;
     isLoading := isLoading s; error := e; lastUpdated := lastUpdated s |}.

(** The getter [formattedLastUpdated]; [now] is [Date.now()]. *)
Definition formattedLastUpdated (now : Z) (state : State) : jsstring :=
  match lastUpdated state with
  | None => js "Never"
  | Some t =>
      if (t =? 0)%Z then js "Never"
      else
        let diffMs := (now - t)%Z in
        let diffSec := (diffMs / 1000)%Z in
        let diffMin := (diffSec / 60)%Z in
        let diffHour := (diffMin / 60)%Z in
        if (diffSec <? 30)%Z then js "Just now"
        else if (diffSec <? 60)%Z then num_to_string diffSec ++ js " seconds ago"
        else if (diffMin =? 1)%Z then js "1 minute ago"
        else if (diffMin <? 60)%Z then num_to_string diffMin ++ js " minutes ago"
        else if (diffHour =? 1)%Z then js "1 hour ago"
        else if (diffHour <? 24)%Z then num_to_string diffHour ++ js " hours ago"
        else
          let diffDays := (diffHour / 24)%Z in
          if (diffDays =? 1)%Z then js "1 day ago"
          else num_to_string diffDays ++ js " days ago"
  end.

(** [saveLastLocation(location)]: a failure of the storage is swallowed. *)
Definition saveLastLocation (location : jsval) (s : Store) : Store :=
  match setItem STORAGE_KEY (to_String location) (localStorage s) with
  | Return ls => {| state := state s; localStorage := ls |}
  | Throw _ => s
  end.

(** [loadLastLocation()] *)
Definition loadLastLocation (s : Store) : option jsstring :=
  match getItem STORAGE_KEY (localStorage s) with
  | Return v => v
  | Throw _ => None
  end.

(** The three promises handed to [Promise.all], each with the instant at
    which it settles. *)
Record Legs := {
  currentLeg : Completion (CurrentWeather.t * Location.t);
  currentAt : nat;
  hourlyLeg : Completion (list HourlyEntry.t * Location.t);
  hourlyAt : nat;
  dailyLeg : Completion (list DailyEntry.t * Location.t);
  dailyAt : nat }.

Definition rejection {A} (c : Completion A) (at_ : nat) : option (nat * Thrown) :=
  match c with
  | Return _ => None
  | Throw e => Some (at_, e)
  end.

(** Of two rejections the one that settles first; the earlier promise of
    the array when they settle together. *)
Definition earlier (x y : option (nat * Thrown)) : option (nat * Thrown) :=
  match x, y with
  | Some (tx, ex), Some (ty, ey) => if (ty <? tx)%nat then y else x
  | Some _, None => x
  | None, _ => y
  end.

(** [await Promise.all([...])]: the three values when every promise is
    fulfilled, the reason of the first rejection otherwise. *)
Definition promise_all (legs : Legs)
    : Completion ((CurrentWeather.t * Location.t) * (list HourlyEntry.t * Location.t)
                  * (list DailyEntry.t * Location.t)) :=
  match currentLeg legs, hourlyLeg legs, dailyLeg legs with
  | Return c, Return h, Return d => Return (c, h, d)
  | c, h, d =>
      match earlier (rejection c (currentAt legs))
              (earlier (rejection h (hourlyAt legs)) (rejection d (dailyAt legs))) with
      | Some (_, e) => Throw e
      | None => Throw (OtherError []) (* not reached: one of the three is rejected *)
      end
  end.

(** The two assignments before the [try]. *)
Definition fetch_begin (s : Store) : Store :=
  with_state (λ st, set_error None (set_isLoading true st)) s.

(** The rest of the [try] block once [Promise.all] is fulfilled; [now] is
    [Date.now()]. *)
Definition fetch_commit (now : Z) (locationQuery : jsval)
    (currentData : CurrentWeather.t * Location.t)
    (hourlyData : list HourlyEntry.t * Location.t)
    (dailyData : list DailyEntry.t * Location.t) (s : Store) : Store :=
  let s :=
    with_state (λ st,
      {| currentWeather := Some currentData.1;
         hourlyForecast := hourlyData.1;
         dailyForecast := dailyData.1;
         location := Some currentData.2;
         isLoading := isLoading st;
         error := error st;
         lastUpdated := Some now |}) s in
  saveLastLocation locationQuery s.

(** The [catch] block. *)
Definition fetch_catch (error : Thrown) (s : Store) : Store :=
  match error with
  | WeatherApiError m _ _ => with_state (set_error (Some m)) s
  | _ => with_state (set_error (Some MSG_GENERIC)) s
  end.

(** The [finally] block. *)
Definition fetch_finally (s : Store) : Store := with_state (set_isLoading false) s.

(** What [fetchWeatherData] does when [Promise.all] has settled. *)
Definition fetch_settle (now : Z) (locationQuery : jsval) (legs : Legs) (s : Store) : Store :=
  fetch_finally
    match promise_all legs with
    | Return (currentData, hourlyData, dailyData) =>
        fetch_commit now locationQuery currentData hourlyData dailyData s
    | Throw error => fetch_catch error s
    end.

(** The action [fetchWeatherData(locationQuery)], from the call to the
    moment it settles. *)
Definition fetchWeatherData (now : Z) (legs : Legs) (locationQuery : jsval) (s : Store) : Store :=
  fetch_settle now locationQuery legs (fetch_begin s).

(** What one invocation meets outside the store: the API key, the network
    for each of the three requests, the clock read by the normalizer and by
    [Date.now()], and the order in which the promises settle. *)
Record Env := {
  apiKey : option jsstring;
  netCurrent : FetchOutcome;
  netHourly : FetchOutcome;
  netDaily : FetchOutcome;
  clock : Date.Clock;
  settleCurrent : nat;
  settleHourly : nat;
  settleDaily : nat;
  dateNow : Z }.

(** The three calls to the provider client made by the action. *)
Definition provider_legs (env : Env) (locationQuery : jsval) : Legs :=
  {| currentLeg := getCurrentWeather (apiKey env) (netCurrent env) locationQuery;
     currentAt := settleCurrent env;
     hourlyLeg := getHourlyForecast (apiKey env) (netHourly env) (clock env) locationQuery;
     hourlyAt := settleHourly env;
     dailyLeg := getDailyForecast (apiKey env) (netDaily env) locationQuery;
     dailyAt := settleDaily env |}.

(** The action run against the provider client. *)
Definition fetchWeatherData_in (env : Env) (locationQuery : jsval) (s : Store) : Store :=
  fetchWeatherData (dateNow env) (provider_legs env locationQuery) locationQuery s.

(** [refreshWeather()] *)
Definition refreshWeather (env : Env) (s : Store) : Store :=
  let city := from_option Location.city JUndefined (location (state s)) in
  let locationToRefresh := js_or city (JStr DEFAULT_LOCATION) in
  fetchWeatherData_in env locationToRefresh s.

(** [clearError()] *)
Definition clearError (s : Store) : Store := with_state (set_error None) s.

(** [initializeStore()] *)
Definition initializeStore (env : Env) (s : Store) : Store :=
  let lastLocation := from_option JStr JNull (loadLastLocation s) in
  let initialLocation := js_or lastLocation (JStr DEFAULT_LOCATION) in
  fetchWeatherData_in env initialLocation s.

End WeatherStore.


(** ** components/SearchBar.vue: the script of the search form *)

Module SearchBar.
Import Js.

(** The refs of [setup]: the text of the input, the debounce flag and the
    message under the input. *)
Record State := {
  searchQuery : jsstring;
  isSearching : bool;
  validationError : jsstring }.

(** The payload of the [search] event. *)
Record SearchEvent := {
  query : jsstring;
  type : SearchDetector.SearchType;
  originalInput : jsstring }.

Section WithPlatform.

Variable toLowerCase : jsstring → jsstring.

(** [handleSearch()]: the state it leaves and the event it emits, if any. *)
Definition handleSearch (s : State) : State * option SearchEvent :=
  if isSearching s then (s, None)
  else
    let sanitizedQuery := SearchDetector.sanitizeSearchInput (JStr (searchQuery s)) in
    match SearchDetector.validateSearchInput (JStr sanitizedQuery) with
    | SearchDetector.Invalid error =>
        ({| searchQuery := searchQuery s; isSearching := isSearching s;
            validationError := error |}, None)
    | SearchDetector.Valid =>
        let searchResult := SearchDetector.detectSearchType toLowerCase (JStr sanitizedQuery) in
        ({| searchQuery := searchQuery s; isSearching := true; validationError := [] |},
         Some {| query := SearchDetector.value searchResult;
                 type := SearchDetector.type searchResult;
                 originalInput := trim (searchQuery s) |})
    end.

End WithPlatform.

(** [handleClear()] *)
Definition handleClear (s : State) : State :=
  {| searchQuery := []; isSearching := isSearching s; validationError := [] |}.

(** [stopLoading()] *)
Definition stopLoading (s : State) : State :=
  {| searchQuery := searchQuery s; isSearching := false;
     validationError := validationError s |}.

(** [setError(error)] *)
Definition setError (error : jsstring) (s : State) : State :=
  {| searchQuery := searchQuery s; isSearching := false; validationError := error |}.

End SearchBar.

(** ** components/HourlyForecast.vue: the icon address *)

Module HourlyForecast.
Import Js WeatherApi.

(** [s.startsWith(prefix)] *)
Definition startsWith (prefix s : jsstring) : bool :=
  bool_decide (take (length prefix) s = prefix).

(** [s.replace(pattern, replacement)] for a string pattern and a replacement
    without [$]: the first occurrence is replaced. *)
Fixpoint replace_first (pattern replacement s : jsstring) : jsstring :=
  if startsWith pattern s then replacement ++ drop (length pattern) s
  else
    match s with
    | c :: r => c :: replace_first pattern replacement r
    | [] => []
    end.

(** [getIconUrl(iconUrl)]; on a truthy value that is not a string the call
    of [startsWith] throws. *)
Definition getIconUrl (iconUrl : jsval) : Completion jsstring :=
  if negb (truthy iconUrl) then Return []
  else
    match iconUrl with
    | JStr iconUrl =>
        if startsWith (js "//") iconUrl then Return (js "https:" ++ iconUrl)
        else if startsWith (js "http://") iconUrl
        then Return (replace_first (js "http://") (js "https://") iconUrl)
        else Return iconUrl
    | _ => Throw (TypeError (js "iconUrl.startsWith is not a function"))
    end.

End HourlyForecast.

(** ** Notions the specification speaks of, and sample inputs *)

Module Spec.
Import Js WeatherApi WeatherStore.

Definition rejected {A} (c : Completion A) : Prop := ∃ e, c = Throw e.

Definition fulfilled {A} (c : Completion A) : Prop := ∃ a, c = Return a.

(** Some promise of the three is rejected. *)
Definition some_leg_fails (legs : Legs) : Prop :=
  rejected (currentLeg legs) ∨ rejected (hourlyLeg legs) ∨ rejected (dailyLeg legs).

Definition no_location : Location.t :=
  {| Location.city := JNull; Location.region := JNull; Location.country := JNull;
     Location.timezone := JNull; Location.localtime := JNull |}.

(** The current-weather call meets a 404, the daily call a network failure,
    the hourly call succeeds. *)
Definition failing_legs : Legs :=
  {| currentLeg := Throw (WeatherApiError MSG_NOT_FOUND not_found None); currentAt := 2;
     hourlyLeg := Return ([], no_location); hourlyAt := 1;
     dailyLeg := Throw (TypeError (js "Failed to fetch")); dailyAt := 3 |}.

Definition idle_store : Store :=
  {| state := initial_state;
     localStorage := {| items := ∅; throws := false; written := [] |} |}.

Definition state_updated_at (t : Z) : State :=
  {| currentWeather := None; hourlyForecast := []; dailyForecast := [];
     location := None; isLoading := false; error := None; lastUpdated := Some t |}.

(** *** Strings *)

(** No white space at either end. *)
Definition trimmed (s : jsstring) : Prop :=
  (∀ c, head s = Some c → is_ws c = false) ∧ (∀ c, last s = Some c → is_ws c = false).

(** The string starts with a digit. *)
Definition starts_with_digit (s : jsstring) : bool :=
  match s with
  | c :: _ => is_digit c
  | [] => false
  end.

(** [toLowerCase] on code units below 128 only: the case mapping of ASCII. *)
Definition ascii_toLowerCase (s : jsstring) : jsstring := ascii_lower <$> s.

(** Every white space is a single space between two other code units;
    [prev_ws] says that a white space stands just before [s]. *)
Fixpoint single_spaced (prev_ws : bool) (s : jsstring) : Prop :=
  match s with
  | [] => True
  | c :: r =>
      if is_ws c then c = SPACE ∧ prev_ws = false ∧ single_spaced true r
      else single_spaced false r
  end.

(** What the sanitizer lets through: none of the removed characters, single
    spaces only, no white space at the ends, at most 100 code units. *)
Definition clean (s : jsstring) : Prop :=
  Forall (λ c, SearchDetector.is_special c = false) s
  ∧ single_spaced false s
  ∧ trimmed s
  ∧ length s ≤ SearchDetector.MAX_LENGTH.

(** *** Precipitation *)

(** The field is there ([undefined] is what reading an absent field gives). *)
Definition present (v : jsval) : bool :=
  match v with
  | JUndefined => false
  | _ => true
  end.

(** The rule in the words of the specification: the rain chance if present
    and truthy, else the snow chance if present and truthy, else 0. *)
Definition precipitation_rule (rain snow : jsval) : jsval :=
  if present rain && truthy rain then rain
  else if present snow && truthy snow then snow
  else JNum 0.

(** *** The hourly window *)

Definition raw_days (data : Data.t) : list RawDay.t :=
  default [] (RawForecast.forecastday (Data.forecast data)).

(** The flattened hourly list of a response. *)
Definition raw_hours (data : Data.t) : list RawHour.t :=
  flat_map (λ day, default [] (RawDay.hour day)) (raw_days data).

(** The date and the hour of an entry, read off its [time] as the filter
    reads them. *)
Definition entry_date (e : HourlyEntry.t) : jsstring := split_0 SPACE (HourlyEntry.time e).

Definition entry_hour (e : HourlyEntry.t) : option Z :=
  split_1 SPACE (HourlyEntry.time e) ≫= λ t, parseInt (split_0 COLON t).

(** The date is strictly later than [today], or it is [today] and the hour
    is at least [currentHour]. *)
Definition at_or_after (today : jsstring) (currentHour : Z) (e : HourlyEntry.t) : bool :=
  str_lt today (entry_date e)
  || bool_decide (entry_date e = today)
     && match entry_hour e with
        | Some h => (currentHour <=? h)%Z
        | None => false
        end.

(** The window relative to a given [today] and [currentHour]. *)
Definition window (today : jsstring) (currentHour : Z) (entries : list HourlyEntry.t)
    : list HourlyEntry.t :=
  if (length entries <=? 24)%nat then entries
  else take 24 (List.filter (at_or_after today currentHour) entries).

(** The window of the specification: today and the current hour are those
    of the caller's local clock. *)
Definition local_window (now : Date.Clock) (entries : list HourlyEntry.t)
    : list HourlyEntry.t :=
  window (Date.local_date now) (Date.getHours now) entries.

(** The [time] has the space the filter splits at. *)
Definition has_space (h : RawHour.t) : Prop := SPACE ∈ RawHour.time h.

(** *** A sample response *)

Definition clear_sky : Condition.t :=
  {| Condition.text := JStr (js "Clear");
     Condition.icon := JStr (js "//cdn.weatherapi.com/weather/64x64/night/113.png") |}.

Definition sample_hour (rain snow : jsval) (date : string) (h : Z) : RawHour.t :=
  {| RawHour.time := js date ++ [SPACE] ++ Date.pad 2 h ++ js ":00";
     RawHour.temp_f := JNum 60; RawHour.condition := clear_sky;
     RawHour.chance_of_rain := rain; RawHour.chance_of_snow := snow;
     RawHour.wind_mph := JNum 5; RawHour.humidity := JNum 70 |}.

Definition sample_day (rain snow : jsval) (date : string) : RawDay.t :=
  {| RawDay.date := JStr (js date);
     RawDay.day :=
       {| RawDayStats.maxtemp_f := JNum 68; RawDayStats.mintemp_f := JNum 52;
          RawDayStats.condition := clear_sky;
          RawDayStats.daily_chance_of_rain := rain;
          RawDayStats.daily_chance_of_snow := snow |};
     RawDay.hour := Some (sample_hour rain snow date <$> seqZ 0 24) |}.

Definition sample_data (days : list RawDay.t) : Data.t :=
  {| Data.location :=
       {| RawLocation.name := JStr (js "San Francisco");
          RawLocation.region := JStr (js "California");
          RawLocation.country := JStr (js "United States of America");
          RawLocation.tz_id := JStr (js "America/Los_Angeles");
          RawLocation.localtime := JStr (js "2024-01-15 20:00") |};
     Data.current :=
       {| RawCurrent.temp_f := JNum 60; RawCurrent.feelslike_f := JNum 58;
          RawCurrent.condition := clear_sky; RawCurrent.humidity := JNum 70;
          RawCurrent.wind_mph := JNum 5; RawCurrent.wind_dir := JStr (js "W");
          RawCurrent.last_updated := JStr (js "2024-01-15 19:45") |};
     Data.forecast := {| RawForecast.forecastday := Some days |} |}.

Definition sample_body (days : list RawDay.t) : RawBody.t :=
  let data := sample_data days in
  {| RawBody.location := Some (Data.location data);
     RawBody.current := Some (Data.current data);
     RawBody.forecast := Some (Data.forecast data) |}.

(** Two days of hours, the 15th and the 16th of January 2024. *)
Definition two_days : Data.t :=
  sample_data [sample_day (JNum 0) (JNum 0) "2024-01-15";
               sample_day (JNum 0) (JNum 0) "2024-01-16"].

(** 2024-01-15, 20:00 in a zone eight hours behind UTC: 2024-01-16T04:00Z. *)
Definition evening_in_california : Date.Clock :=
  {| Date.nowMs := 1705377600000; Date.localTZA := -28800000 |}.

(** The same instant for a caller whose zone is UTC. *)
Definition early_morning_utc : Date.Clock :=
  {| Date.nowMs := 1705377600000; Date.localTZA := 0 |}.

(** The provider answers the current and the hourly request and fails the
    daily one with a 500. *)
Definition daily_request_fails : Env :=
  let answer := FetchResolves 200 (JsonResolves (Some (sample_body
                  [sample_day (JNum 0) (JNum 0) "2024-01-16"]))) in
  {| apiKey := Some (js "test_api_key_12345");
     netCurrent := answer; netHourly := answer;
     netDaily := FetchResolves 500 (JsonRejects (OtherError (js "Unexpected token")));
     clock := early_morning_utc;
     settleCurrent := 1; settleHourly := 2; settleDaily := 3;
     dateNow := 1705377600000 |}.

(** Every request is answered. *)
Definition all_requests_answered : Env :=
  let answer := FetchResolves 200 (JsonResolves (Some (sample_body
                  [sample_day (JNum 0) (JNum 0) "2024-01-16"]))) in
  {| apiKey := Some (js "test_api_key_12345");
     netCurrent := answer; netHourly := answer; netDaily := answer;
     clock := early_morning_utc;
     settleCurrent := 1; settleHourly := 2; settleDaily := 3;
     dateNow := 1705377600000 |}.

End Spec.

(** ** Further notions for the properties of the uncited code *)

Module Extra.
Import Js WeatherApi WeatherStore Spec.

(** The seven messages the provider client puts in its errors. *)
Definition user_messages : list jsstring :=
  [MSG_CONFIG; MSG_LOCATION_REQUIRED; MSG_NOT_FOUND; MSG_UNAVAILABLE; MSG_GENERIC;
   MSG_INVALID_RESPONSE; MSG_NETWORK].

(** The thrown value is a [WeatherApiError]. *)
Definition typed (e : Thrown) : Prop := ∃ m t o, e = WeatherApiError m t o.

(** The key is set, is not blank and is not the placeholder. *)
Definition usable_key (apiKey : option jsstring) : Prop :=
  ∃ k, apiKey = Some k ∧ trim k ≠ [] ∧ k ≠ js "your_api_key_here".

(** The location is a string that is not blank. *)
Definition usable_location (location : jsval) : Prop :=
  ∃ l, location = JStr l ∧ trim l ≠ [].


(** The body lacks one of the three sections. *)
Definition incomplete (body : option RawBody.t) : Prop :=
  match body with
  | None => True
  | Some b =>
      RawBody.location b = None ∨ RawBody.current b = None ∨ RawBody.forecast b = None
  end.

(** The [catch] block of the client takes the failure for a network one. *)
Definition looks_like_network (cause : Thrown) : bool :=
  match cause with
  | TypeError _ => true
  | OtherError m => str_includes (js "fetch") m
  | WeatherApiError _ _ _ => false
  end.

(** Every class of the pattern holds only code units with [P]. *)
Fixpoint classes_within (P : N → Prop) (r : Regex.regex) : Prop :=
  match r with
  | Regex.Class q => ∀ c, q c = true → P c
  | Regex.Cat a b | Regex.Alt a b => classes_within P a ∧ classes_within P b
  | _ => True
  end.

(** The shape of the pattern forces a code unit with [P] into every match. *)
Fixpoint every_match_has (P : N → Prop) (r : Regex.regex) : Prop :=
  match r with
  | Regex.Void => True
  | Regex.Eps => False
  | Regex.Class q => ∀ c, q c = true → P c
  | Regex.Cat a b => every_match_has P a ∨ every_match_has P b
  | Regex.Alt a b => every_match_has P a ∧ every_match_has P b
  end.

(** No class of the pattern tells [c] from [f c]. *)
Fixpoint classes_blind_to (f : N → N) (r : Regex.regex) : Prop :=
  match r with
  | Regex.Class q => ∀ c, q (f c) = q c
  | Regex.Cat a b | Regex.Alt a b => classes_blind_to f a ∧ classes_blind_to f b
  | _ => True
  end.



(** The rejections among the three promises, each with its instant. *)
Definition rejections (legs : Legs) : list (nat * Thrown) :=
  omap id [rejection (currentLeg legs) (currentAt legs);
           rejection (hourlyLeg legs) (hourlyAt legs);
           rejection (dailyLeg legs) (dailyAt legs)].

(** No request of the environment is rejected with a [WeatherApiError] by
    the network itself. *)
Definition network_is_untyped (env : Env) : Prop :=
  ∀ net cause, net ∈ [netCurrent env; netHourly env; netDaily env] →
    net = FetchRejects cause → ¬ typed cause.

(** Three fulfilled promises. *)
Definition fulfilled_legs : Legs :=
  {| currentLeg := Return (transformCurrentWeather (sample_data []),
                           transformLocation (sample_data []));
     currentAt := 1;
     hourlyLeg := Return ([], no_location); hourlyAt := 2;
     dailyLeg := Return ([], no_location); dailyAt := 3 |}.

(** A store whose storage throws on every access. *)
Definition store_without_storage : Store :=
  {| state := initial_state;
     localStorage := {| items := ∅; throws := true; written := [] |} |}.

(** What is read for a given number of elapsed milliseconds. *)
Inductive reads_as (elapsed : Z) : jsstring → Prop :=
| reads_just_now :
    (elapsed < 30000)%Z → reads_as elapsed (js "Just now")
| reads_seconds n :
    (30 ≤ n < 60)%Z → (n * 1000 ≤ elapsed < (n + 1) * 1000)%Z →
    reads_as elapsed (num_to_string n ++ js " seconds ago")
| reads_minute :
    (60000 ≤ elapsed < 120000)%Z → reads_as elapsed (js "1 minute ago")
| reads_minutes n :
    (2 ≤ n < 60)%Z → (n * 60000 ≤ elapsed < (n + 1) * 60000)%Z →
    reads_as elapsed (num_to_string n ++ js " minutes ago")
| reads_hour :
    (3600000 ≤ elapsed < 7200000)%Z → reads_as elapsed (js "1 hour ago")
| reads_hours n :
    (2 ≤ n < 24)%Z → (n * 3600000 ≤ elapsed < (n + 1) * 3600000)%Z →
    reads_as elapsed (num_to_string n ++ js " hours ago")
| reads_day :
    (86400000 ≤ elapsed < 172800000)%Z → reads_as elapsed (js "1 day ago")
| reads_days n :
    (2 ≤ n)%Z → (n * 86400000 ≤ elapsed < (n + 1) * 86400000)%Z →
    reads_as elapsed (num_to_string n ++ js " days ago").

End Extra.

(** * Properties *)

(** ** The provider client: HTTP status mapping *)

Section ProviderClient.
Import Js WeatherApi.
Local Open Scope Z_scope.

Lemma trim_nil : trim [] = [].
Proof. reflexivity. Qed.

Lemma ok_false_iff status : ok status = false ↔ ¬ (200 ≤ status ≤ 299).
Proof. unfold ok. rewrite andb_false_iff, !Z.leb_gt. lia. Qed.

Lemma http_error_is_typed status :
  ∃ msg ty, http_error status = WeatherApiError msg ty None.
Proof. unfold http_error. repeat case_match; eauto. Qed.

(** A call that passes the two precondition checks and meets a response that
    is not [ok] throws what the status branch builds: the [catch] block
    rethrows it unchanged. *)
Lemma fetchWeatherData_not_ok apiKey l status json :
  validateConfig apiKey = Return () →
  trim l ≠ [] →
  ok status = false →
  fetchWeatherData apiKey (FetchResolves status json) (JStr l) = Throw (http_error status).
Proof.
  intros Hcfg Hl Hok. unfold fetchWeatherData. rewrite Hcfg. simpl.
  assert (l ≠ []) as Hne by (intros ->; by apply Hl).
  rewrite !bool_decide_eq_false_2 by done. simpl. rewrite Hok. simpl.
  destruct (http_error_is_typed status) as (msg & ty & ->). reflexivity.
Qed.

(** C7: for a request that is really sent (the configuration and the
    location pass their checks) and a response whose status is outside
    200..299, [fetchWeatherData] throws a [WeatherApiError] whose type and
    message are fixed by the status alone: 400 and 404 give [not_found] and
    the location-not-found message, 401 and 403 give [config], 500 and above
    give [api_error] and the temporarily-unavailable message, every other
    status gives [api_error] and the generic message. *)
Theorem fetchWeatherData_status_mapping apiKey l status json :
  validateConfig apiKey = Return () →
  trim l ≠ [] →
  ¬ (200 ≤ status ≤ 299) →
  ∃ msg ty,
    fetchWeatherData apiKey (FetchResolves status json) (JStr l)
      = Throw (WeatherApiError msg ty None)
    ∧ (status = 400 ∨ status = 404 → ty = not_found ∧ msg = MSG_NOT_FOUND)
    ∧ (status = 401 ∨ status = 403 → ty = config ∧ msg = MSG_CONFIG)
    ∧ (500 ≤ status → ty = api_error ∧ msg = MSG_UNAVAILABLE)
    ∧ (status ≠ 400 → status ≠ 404 → status ≠ 401 → status ≠ 403 → status < 500 →
       ty = api_error ∧ msg = MSG_GENERIC).
Proof.
  intros Hcfg Hl Hst. apply ok_false_iff in Hst.
  rewrite (fetchWeatherData_not_ok _ _ _ _ Hcfg Hl Hst). unfold http_error.
  destruct (Z.eqb_spec status 400), (Z.eqb_spec status 404),
    (Z.eqb_spec status 401), (Z.eqb_spec status 403), (Z.leb_spec 500 status); simpl;
    eexists _, _; (split; [reflexivity|]); repeat split; intros;
    first [reflexivity | exfalso; lia].
Qed.

Lemma fetchWeatherData_status_mapping_witness :
  ∃ msg ty,
    fetchWeatherData (Some (js "test_api_key_12345")) (FetchResolves 404 (JsonResolves None))
      (JStr (js "InvalidCity")) = Throw (WeatherApiError msg ty None)
    ∧ (404 = 400 ∨ 404 = 404 → ty = not_found ∧ msg = MSG_NOT_FOUND)
    ∧ (404 = 401 ∨ 404 = 403 → ty = config ∧ msg = MSG_CONFIG)
    ∧ (500 ≤ 404 → ty = api_error ∧ msg = MSG_UNAVAILABLE)
    ∧ (404 ≠ 400 → 404 ≠ 404 → 404 ≠ 401 → 404 ≠ 403 → 404 < 500 →
       ty = api_error ∧ msg = MSG_GENERIC).
Proof.
  apply (fetchWeatherData_status_mapping (Some (js "test_api_key_12345"))
           (js "InvalidCity") 404 (JsonResolves None)).
  - vm_compute. reflexivity.
  - vm_compute. discriminate.
  - lia.
Defined.

End ProviderClient.

(** ** The store: retention on failure, loading flag, last-updated text *)

Section Store.
Import Js WeatherApi WeatherStore Spec.

Lemma promise_all_rejects legs :
  some_leg_fails legs → ∃ e, promise_all legs = Throw e.
Proof.
  unfold promise_all.
  intros [[e H]|[[e H]|[e H]]]; rewrite H;
    destruct (currentLeg legs), (hourlyLeg legs), (dailyLeg legs); simplify_eq/=;
    repeat case_match; eauto.
Qed.

Lemma promise_all_fulfilled legs r :
  promise_all legs = Return r →
  fulfilled (currentLeg legs) ∧ fulfilled (hourlyLeg legs) ∧ fulfilled (dailyLeg legs).
Proof.
  unfold promise_all, fulfilled.
  destruct (currentLeg legs), (hourlyLeg legs), (dailyLeg legs); simpl;
    intros; repeat case_match; simplify_eq; eauto 10.
Qed.

(** The reason [Promise.all] rejects with is the reason of one of the three
    promises. *)
Lemma promise_all_reason legs e :
  promise_all legs = Throw e →
  currentLeg legs = Throw e ∨ hourlyLeg legs = Throw e ∨ dailyLeg legs = Throw e.
Proof.
  unfold promise_all.
  destruct (currentLeg legs), (hourlyLeg legs), (dailyLeg legs); simpl;
    intros; repeat case_match; simplify_eq/=; eauto.
Qed.

(** The [catch] and [finally] blocks write [error] and [isLoading] only,
    whatever the state at the time the promise settles. *)
Lemma fetch_settle_failure_frame now q legs s :
  some_leg_fails legs →
  let s' := fetch_settle now q legs s in
  currentWeather (state s') = currentWeather (state s)
  ∧ hourlyForecast (state s') = hourlyForecast (state s)
  ∧ dailyForecast (state s') = dailyForecast (state s)
  ∧ location (state s') = location (state s)
  ∧ lastUpdated (state s') = lastUpdated (state s)
  ∧ localStorage s' = localStorage s.
Proof.
  intros [e He]%promise_all_rejects. unfold fetch_settle. rewrite He.
  destruct e; done.
Qed.

(** C1: when one of the three provider calls of [fetchWeatherData] throws,
    [currentWeather], [hourlyForecast], [dailyForecast], [location] and
    [lastUpdated] keep their values from before the call, [isLoading] and
    [error] are the only fields written ([isLoading] ends [false], [error]
    holds a message), and the durable storage is left as it was, nothing
    being written to it; the value under [weather_last_location] changes, or
    a write is made at all, only when all three calls succeeded. *)
Theorem fetchWeatherData_failure_retains now legs q s :
  let s' := fetchWeatherData now legs q s in
  (some_leg_fails legs →
     currentWeather (state s') = currentWeather (state s)
     ∧ hourlyForecast (state s') = hourlyForecast (state s)
     ∧ dailyForecast (state s') = dailyForecast (state s)
     ∧ location (state s') = location (state s)
     ∧ lastUpdated (state s') = lastUpdated (state s)
     ∧ isLoading (state s') = false
     ∧ (∃ m, error (state s') = Some m)
     ∧ localStorage s' = localStorage s)
  ∧ (items (localStorage s') !! STORAGE_KEY ≠ items (localStorage s) !! STORAGE_KEY
     ∨ written (localStorage s') ≠ written (localStorage s) →
     fulfilled (currentLeg legs) ∧ fulfilled (hourlyLeg legs) ∧ fulfilled (dailyLeg legs)).
Proof.
  simpl. unfold fetchWeatherData, fetch_settle.
  destruct (promise_all legs) as [[[c h] d]|e] eqn:Hall.
  - split.
    + intros [e He]%promise_all_rejects. congruence.
    + intros _. by eapply promise_all_fulfilled.
  - split.
    + intros _. destruct e; simpl; eauto 10.
    + intros Hne. destruct e; simpl in Hne; by destruct Hne.
Qed.

Lemma fetchWeatherData_failure_retains_witness :
  some_leg_fails failing_legs
  ∧ error (state (fetchWeatherData 1000 failing_legs (JStr (js "InvalidCity")) idle_store))
    = Some MSG_NOT_FOUND
  ∧ localStorage (fetchWeatherData 1000 failing_legs (JStr (js "InvalidCity")) idle_store)
    = localStorage idle_store.
Proof.
  assert (some_leg_fails failing_legs) as H by (left; eexists; reflexivity).
  split; [exact H|].
  split; [reflexivity|].
  apply (proj1 (fetchWeatherData_failure_retains 1000 failing_legs
                  (JStr (js "InvalidCity")) idle_store) H).
Defined.

(** C2: whatever the three provider calls do (all succeed, one fails, all
    fail, with a typed error or another one), [isLoading] is [false] once
    [fetchWeatherData] has settled. *)
Theorem fetchWeatherData_clears_loading now legs q s :
  isLoading (state (fetchWeatherData now legs q s)) = false.
Proof. reflexivity. Qed.

(** The same against the provider client, for every environment. *)
Lemma fetchWeatherData_in_clears_loading env q s :
  isLoading (state (fetchWeatherData_in env q s)) = false.
Proof. reflexivity. Qed.

(** The message stored on failure: the message of a [WeatherApiError], the
    generic one for any other reason. *)
Lemma fetchWeatherData_failure_message now legs q s e :
  promise_all legs = Throw e →
  error (state (fetchWeatherData now legs q s))
  = Some (match e with WeatherApiError m _ _ => m | _ => MSG_GENERIC end).
Proof.
  intros He. unfold fetchWeatherData, fetch_settle. rewrite He. by destruct e.
Qed.

(** On success the storage holds the query, unless the write throws. *)
Lemma fetchWeatherData_success_persists now legs q s r :
  promise_all legs = Return r →
  throws (localStorage s) = false →
  items (localStorage (fetchWeatherData now legs q s)) !! STORAGE_KEY = Some (to_String q)
  ∧ written (localStorage (fetchWeatherData now legs q s))
    = (STORAGE_KEY, to_String q) :: written (localStorage s)
  ∧ lastUpdated (state (fetchWeatherData now legs q s)) = Some now.
Proof.
  intros Hr Hth. unfold fetchWeatherData, fetch_settle. rewrite Hr.
  destruct r as [[c h] d]. unfold fetch_commit, saveLastLocation, setItem. simpl.
  rewrite Hth. simpl. by rewrite lookup_insert_eq.
Qed.

(** Scenario (5) of the specification, against the provider client: the
    daily request meets a 500 while the two others are answered; the store
    keeps what it had, holds the message of the error and is not loading,
    and nothing is written to the storage. *)
Example fetchWeatherData_in_daily_fails :
  let s' := fetchWeatherData_in daily_request_fails (JStr (js "San Francisco")) idle_store in
  state s' = set_error (Some MSG_UNAVAILABLE) (state idle_store)
  ∧ localStorage s' = localStorage idle_store.
Proof. by vm_compute. Qed.

(** With every request answered the store commits the three results and
    writes the query under the storage key. *)
Example fetchWeatherData_in_success :
  let s' :=
    fetchWeatherData_in all_requests_answered (JStr (js "San Francisco")) idle_store in
  lastUpdated (state s') = Some 1705377600000%Z
  ∧ error (state s') = None
  ∧ isLoading (state s') = false
  ∧ length (hourlyForecast (state s')) = 24
  ∧ length (dailyForecast (state s')) = 1
  ∧ written (localStorage s') = [(STORAGE_KEY, js "San Francisco")].
Proof. by vm_compute. Qed.

Local Open Scope Z_scope.

(** C9: a [lastUpdated] that lies in the future of the clock reads as
    [Just now]: the difference in seconds is negative, so below 30. The
    clock counts milliseconds from the epoch and is not negative. *)
Theorem formattedLastUpdated_future now t st :
  0 ≤ now →
  lastUpdated st = Some t →
  now < t →
  formattedLastUpdated now st = js "Just now".
Proof.
  intros Hnow Ht Hlt. unfold formattedLastUpdated. rewrite Ht.
  destruct (Z.eqb_spec t 0) as [->|_]; [lia|].
  assert ((now - t) / 1000 < 30) as H%Z.ltb_lt.
  { apply Z.div_lt_upper_bound; lia. }
  by rewrite H.
Qed.

Lemma formattedLastUpdated_future_witness :
  formattedLastUpdated 1705312800000
    (state_updated_at 1705312860000)
  = js "Just now".
Proof.
  apply (formattedLastUpdated_future 1705312800000 1705312860000); [lia|reflexivity|lia].
Defined.

(** The falsy test of the getter: a [lastUpdated] of 0 reads as [Never]
    whatever the clock says. *)
Lemma formattedLastUpdated_zero now st :
  lastUpdated st = Some 0 → formattedLastUpdated now st = js "Never".
Proof. intros H. unfold formattedLastUpdated. by rewrite H. Qed.

(** Scenario (6) of the specification. *)
Example formattedLastUpdated_75s :
  formattedLastUpdated 1705312800000
    (state_updated_at (1705312800000 - 75000))
  = js "1 minute ago".
Proof. reflexivity. Qed.

End Store.

(** ** The normalizer: precipitation and the 24-hour window *)

Section Normalizer.
Import Js WeatherApi Spec.

(** [a || b || 0] is the rule of the specification. *)
Lemma js_or_precipitation_rule rain snow :
  js_or (js_or rain snow) (JNum 0) = precipitation_rule rain snow.
Proof.
  unfold js_or, precipitation_rule.
  destruct rain as [| |[]|z| |s], snow as [| |[]|z'| |s']; simpl; try reflexivity;
    repeat case_match; simplify_eq/=; try reflexivity; try congruence.
Qed.

Lemma collect_hours_raw days :
  collect_hours days = hourly_entry <$> flat_map (λ day, default [] (RawDay.hour day)) days.
Proof.
  unfold collect_hours. induction days as [|day days IH]; [done|]. simpl.
  rewrite fmap_app, IH. by destruct (RawDay.hour day).
Qed.

Lemma collect_hours_data data :
  collect_hours (raw_days data) = hourly_entry <$> raw_hours data.
Proof. apply collect_hours_raw. Qed.

(** What the filter keeps is a sublist of what it is given. *)
Lemma filterC_sublist {A} (f : A → Completion bool) l r :
  filterC f l = Return r → r `sublist_of` l.
Proof.
  revert r. induction l as [|x l IH]; simpl; intros r Hr.
  - by simplify_eq.
  - destruct (f x) as [b|]; simpl in Hr; [|done].
    destruct (filterC f l) as [r'|]; simpl in Hr; [|done].
    simplify_eq. destruct b; [apply sublist_skip|apply sublist_cons]; by apply IH.
Qed.

(** A callback that does not throw makes [filterC] the filter of lists. *)
Lemma filterC_pure {A} (f : A → Completion bool) (g : A → bool) l :
  Forall (λ x, f x = Return (g x)) l → filterC f l = Return (List.filter g l).
Proof.
  induction 1 as [|x l Hx _ IH]; simpl; [done|]. by rewrite Hx, IH.
Qed.

Lemma str_lt_irrefl s : str_lt s s = false.
Proof.
  induction s as [|c s IH]; simpl; [done|].
  by rewrite N.ltb_irrefl, N.eqb_refl, IH.
Qed.

Lemma split_1_is_Some sep s : sep ∈ s → is_Some (split_1 sep s).
Proof.
  unfold split_1. induction s as [|c s IH]; [by intros ?%elem_of_nil|].
  intros [->|Hin]%elem_of_cons; simpl.
  - rewrite N.eqb_refl. eauto.
  - destruct (c =? sep)%N; [eauto|by apply IH].
Qed.

(** On an entry whose [time] has a space the callback does not throw and
    decides [at_or_after]. *)
Lemma is_future_at_or_after currentHour currentDate (e : HourlyEntry.t) :
  SPACE ∈ HourlyEntry.time e →
  is_future currentHour currentDate e = Return (at_or_after currentDate currentHour e).
Proof.
  intros [t Ht]%split_1_is_Some. unfold is_future, at_or_after, entry_hour, entry_date.
  rewrite Ht. simpl. case_bool_decide as Hd.
  - by rewrite Hd, str_lt_irrefl.
  - by rewrite orb_false_r.
Qed.

Lemma data_days_cases data :
  (raw_days data = [] ∧ ∀ now, transformHourlyForecast now data = Return [])
  ∨ (raw_days data ≠ [] ∧ ∀ now,
       transformHourlyForecast now data =
         let hourlyData := collect_hours (raw_days data) in
         if (length hourlyData <=? 24)%nat then Return hourlyData
         else bind (filterC (is_future (Date.getHours now) (Date.toISOString_date now))
                      hourlyData) (λ futureHours, Return (take 24 futureHours))).
Proof.
  unfold transformHourlyForecast, raw_days.
  destruct (RawForecast.forecastday (Data.forecast data)) as [[|day days]|]; simpl;
    [left|right|left]; done.
Qed.

(** When the flattened list has at most 24 entries it is returned as it is. *)
Lemma transformHourlyForecast_short now data :
  length (raw_hours data) ≤ 24 →
  transformHourlyForecast now data = Return (hourly_entry <$> raw_hours data).
Proof.
  intros Hn. destruct (data_days_cases data) as [[Hd H]|[Hd H]]; rewrite H.
  - unfold raw_hours. by rewrite Hd.
  - simpl. rewrite collect_hours_data, length_fmap.
    by rewrite (proj2 (Nat.leb_le _ _) Hn).
Qed.

(** When it has more, and every [time] has its space, the result is the
    first 24 of the entries at or after the current hour of the caller's
    clock on the UTC date of [toISOString]. *)
Lemma transformHourlyForecast_long now data :
  24 < length (raw_hours data) →
  Forall has_space (raw_hours data) →
  transformHourlyForecast now data
  = Return (take 24 (List.filter (at_or_after (Date.toISOString_date now) (Date.getHours now))
                       (hourly_entry <$> raw_hours data))).
Proof.
  intros Hn Hsp. destruct (data_days_cases data) as [[Hd H]|[Hd H]]; rewrite H.
  - unfold raw_hours in Hn. rewrite Hd in Hn. simpl in Hn. lia.
  - simpl. rewrite collect_hours_data, length_fmap.
    rewrite (proj2 (Nat.leb_gt _ _) Hn).
    erewrite filterC_pure; [done|].
    apply Forall_fmap. eapply Forall_impl; [exact Hsp|].
    intros h Hh. by apply is_future_at_or_after.
Qed.

(** The code computes the window of the specification relative to the UTC
    date. *)
Lemma transformHourlyForecast_window now data :
  Forall has_space (raw_hours data) →
  transformHourlyForecast now data
  = Return (window (Date.toISOString_date now) (Date.getHours now)
              (hourly_entry <$> raw_hours data)).
Proof.
  intros Hsp. unfold window. rewrite length_fmap.
  destruct (Nat.leb_spec (length (raw_hours data)) 24).
  - by apply transformHourlyForecast_short.
  - by apply transformHourlyForecast_long.
Qed.

(** So it computes the window of the caller's local clock whenever the
    local date and the UTC date are the same. *)
Lemma transformHourlyForecast_local_window now data :
  Forall has_space (raw_hours data) →
  Date.local_date now = Date.toISOString_date now →
  transformHourlyForecast now data
  = Return (local_window now (hourly_entry <$> raw_hours data)).
Proof.
  intros Hsp Hd. unfold local_window. rewrite Hd. by apply transformHourlyForecast_window.
Qed.

(** C4: when the flattened hourly list has at most 24 entries the result
    has as many entries as the list; when it has more, a result has at most
    24 entries, and there is a result as soon as every [time] has the space
    between date and hour. *)
Theorem transformHourlyForecast_length now data :
  (length (raw_hours data) ≤ 24 →
     ∃ r, transformHourlyForecast now data = Return r
          ∧ length r = length (raw_hours data))
  ∧ (24 < length (raw_hours data) →
       (∀ r, transformHourlyForecast now data = Return r → length r ≤ 24)
       ∧ (Forall has_space (raw_hours data) →
            ∃ r, transformHourlyForecast now data = Return r ∧ length r ≤ 24)).
Proof.
  split; [|split].
  - intros Hn. eexists. split; [by apply transformHourlyForecast_short|].
    by rewrite length_fmap.
  - intros r. destruct (data_days_cases data) as [[Hd Hr]|[Hd Hr]]; rewrite Hr; simpl.
    + intros. simplify_eq. simpl. lia.
    + rewrite collect_hours_data, length_fmap.
      rewrite (proj2 (Nat.leb_gt _ _) H).
      destruct (filterC _ _) as [fut|]; simpl; [|done].
      intros. simplify_eq. rewrite length_take. lia.
  - intros Hsp. eexists. split; [by apply transformHourlyForecast_long|].
    rewrite length_take. lia.
Qed.

Lemma transformHourlyForecast_length_witness :
  ∃ r, transformHourlyForecast evening_in_california two_days = Return r ∧ length r ≤ 24.
Proof.
  assert (24 < length (raw_hours two_days)) as Hn by (vm_compute; lia).
  assert (Forall has_space (raw_hours two_days)) as Hsp.
  { unfold has_space. apply (bool_decide_unpack _). vm_compute. reflexivity. }
  exact (proj2 (proj2 (transformHourlyForecast_length evening_in_california two_days) Hn) Hsp).
Defined.

(** What is returned is a sublist of the normalized flattened list: entries
    are dropped, none is altered or reordered. *)
Lemma transformHourlyForecast_sublist now data r :
  transformHourlyForecast now data = Return r →
  r `sublist_of` hourly_entry <$> raw_hours data.
Proof.
  destruct (data_days_cases data) as [[Hd Hr]|[Hd Hr]]; rewrite Hr; simpl.
  - intros. simplify_eq. apply sublist_nil_l.
  - rewrite collect_hours_data. case_match.
    + intros. by simplify_eq.
    + destruct (filterC _ _) as [fut|] eqn:Hf; simpl; [|done].
      intros. simplify_eq. etrans; [apply sublist_take|]. by eapply filterC_sublist.
Qed.

(** C3 (the code departs from the claim): at 20:00 on 2024-01-15 in a zone
    eight hours behind UTC, with the 48 hours of the 15th and the 16th, the
    window of the claim starts at 20:00 on the 15th and has 24 entries; the
    code, which takes the hour from the local clock and the date from the UTC
    clock, returns the four entries from 20:00 to 23:00 on the 16th. *)
Theorem transformHourlyForecast_utc_date_slip :
  Date.getHours evening_in_california = 20%Z
  ∧ Date.local_date evening_in_california = js "2024-01-15"
  ∧ Date.toISOString_date evening_in_california = js "2024-01-16"
  ∧ length (raw_hours two_days) = 48
  ∧ local_window evening_in_california (hourly_entry <$> raw_hours two_days)
    = hourly_entry <$>
        (sample_hour (JNum 0) (JNum 0) "2024-01-15" <$> seqZ 20 4)
        ++ (sample_hour (JNum 0) (JNum 0) "2024-01-16" <$> seqZ 0 20)
  ∧ transformHourlyForecast evening_in_california two_days
    = Return (hourly_entry <$> (sample_hour (JNum 0) (JNum 0) "2024-01-16" <$> seqZ 20 4))
  ∧ transformHourlyForecast evening_in_california two_days
    ≠ Return (local_window evening_in_california (hourly_entry <$> raw_hours two_days)).
Proof.
  assert (transformHourlyForecast evening_in_california two_days
    = Return (hourly_entry <$> (sample_hour (JNum 0) (JNum 0) "2024-01-16" <$> seqZ 20 4)))
    as Hcode by (vm_compute; reflexivity).
  repeat split; try (vm_compute; reflexivity).
  rewrite Hcode. intros Heq.
  apply (f_equal (λ c, match c with Return r => length r | Throw _ => 0 end)) in Heq.
  vm_compute in Heq. lia.
Qed.

(** For a caller whose zone is UTC the two dates are one, and the code
    returns the window of the claim for the same response at the same
    instant. *)
Example transformHourlyForecast_utc_caller :
  transformHourlyForecast early_morning_utc two_days
  = Return (local_window early_morning_utc (hourly_entry <$> raw_hours two_days)).
Proof. vm_compute. reflexivity. Qed.

(** C6: the [precipitationChance] of every entry of [transformDailyForecast]
    and of every entry of [transformHourlyForecast] is the rain chance of its
    source if present and truthy, else the snow chance if present and truthy,
    else 0; a rain chance of 0 with a snow chance of 80 gives 80, a rain
    chance of 20 with a snow chance of 0 gives 20, and no field at all gives
    0, in the daily and in the hourly list. *)
Theorem precipitation_collapsing :
  (∀ data,
     DailyEntry.precipitationChance <$> transformDailyForecast data
     = (λ day, precipitation_rule (RawDayStats.daily_chance_of_rain (RawDay.day day))
                 (RawDayStats.daily_chance_of_snow (RawDay.day day))) <$> raw_days data)
  ∧ (∀ now data r,
       transformHourlyForecast now data = Return r →
       ∀ e, e ∈ r →
         ∃ hour, hour ∈ raw_hours data ∧ e = hourly_entry hour
           ∧ HourlyEntry.precipitationChance e
             = precipitation_rule (RawHour.chance_of_rain hour) (RawHour.chance_of_snow hour))
  ∧ DailyEntry.precipitationChance <$>
      transformDailyForecast
        (sample_data [sample_day (JNum 0) (JNum 80) "2024-01-15";
                      sample_day (JNum 20) (JNum 0) "2024-01-16";
                      sample_day JUndefined JUndefined "2024-01-17"])
    = [JNum 80; JNum 20; JNum 0]
  ∧ (∀ now,
       transformHourlyForecast now (sample_data [sample_day (JNum 0) (JNum 80) "2024-01-15"])
       = Return (hourly_entry <$> raw_hours (sample_data [sample_day (JNum 0) (JNum 80) "2024-01-15"]))
       ∧ HourlyEntry.precipitationChance <$>
           (hourly_entry <$> raw_hours (sample_data [sample_day (JNum 0) (JNum 80) "2024-01-15"]))
         = replicate 24 (JNum 80))
  ∧ (∀ now,
       transformHourlyForecast now (sample_data [sample_day (JNum 20) (JNum 0) "2024-01-15"])
       = Return (hourly_entry <$> raw_hours (sample_data [sample_day (JNum 20) (JNum 0) "2024-01-15"]))
       ∧ HourlyEntry.precipitationChance <$>
           (hourly_entry <$> raw_hours (sample_data [sample_day (JNum 20) (JNum 0) "2024-01-15"]))
         = replicate 24 (JNum 20))
  ∧ (∀ now,
       transformHourlyForecast now (sample_data [sample_day JUndefined JUndefined "2024-01-15"])
       = Return (hourly_entry <$> raw_hours (sample_data [sample_day JUndefined JUndefined "2024-01-15"]))
       ∧ HourlyEntry.precipitationChance <$>
           (hourly_entry <$> raw_hours (sample_data [sample_day JUndefined JUndefined "2024-01-15"]))
         = replicate 24 (JNum 0)).
Proof.
  split; [|split; [|split]].
  - intros data. unfold transformDailyForecast, raw_days.
    destruct (RawForecast.forecastday (Data.forecast data)) as [days|]; [|done]. simpl.
    rewrite <-list_fmap_compose. apply list_fmap_ext. intros _ day _. simpl.
    apply js_or_precipitation_rule.
  - intros now data r Hr e He.
    pose proof (transformHourlyForecast_sublist _ _ _ Hr) as Hsub.
    eapply elem_of_sublist in He; [|exact Hsub].
    apply list_elem_of_fmap in He as (hour & -> & Hin).
    exists hour. repeat split; [done|]. simpl. apply js_or_precipitation_rule.
  - vm_compute. reflexivity.
  - repeat split; intros;
      first [apply transformHourlyForecast_short; vm_compute; lia | vm_compute; reflexivity].
Qed.

Lemma precipitation_collapsing_witness :
  ∃ hour, hour ∈ raw_hours two_days
    ∧ hourly_entry (sample_hour (JNum 0) (JNum 0) "2024-01-16" 20) = hourly_entry hour
    ∧ HourlyEntry.precipitationChance
        (hourly_entry (sample_hour (JNum 0) (JNum 0) "2024-01-16" 20))
      = precipitation_rule (RawHour.chance_of_rain hour) (RawHour.chance_of_snow hour).
Proof.
  apply (proj1 (proj2 precipitation_collapsing) evening_in_california two_days
           (hourly_entry <$> (sample_hour (JNum 0) (JNum 0) "2024-01-16" <$> seqZ 20 4))).
  - vm_compute. reflexivity.
  - do 2 apply list_elem_of_fmap_2. apply elem_of_seqZ. lia.
Defined.

End Normalizer.

(** ** Regular expressions: the matcher decides the language *)

Section RegexFacts.
Import Js Regex.

Lemma nullable_lang r : nullable r = true ↔ lang r [].
Proof.
  induction r as [| |p|r1 IH1 r2 IH2|r1 IH1 r2 IH2]; simpl.
  - split; [discriminate|done].
  - done.
  - split; [discriminate|]. by intros (c & ? & _).
  - rewrite andb_true_iff, IH1, IH2. split.
    + intros [H1 H2]. by exists [], [].
    + intros (s1 & s2 & Hs & H1 & H2). symmetry in Hs.
      apply app_eq_nil in Hs as [-> ->]. done.
  - rewrite orb_true_iff, IH1, IH2. done.
Qed.

Lemma deriv_lang c r s : lang (deriv c r) s ↔ lang r (c :: s).
Proof.
  revert s. induction r as [| |p|r1 IH1 r2 IH2|r1 IH1 r2 IH2]; intros s; simpl.
  - done.
  - split; [done|discriminate].
  - destruct (p c) eqn:Hp; simpl.
    + split; [intros ->; eauto|]. by intros (c' & [= -> ->] & _).
    + split; [done|]. intros (c' & [= -> ->] & Hp'). congruence.
  - assert ((∃ s1 s2, s = s1 ++ s2 ∧ lang (deriv c r1) s1 ∧ lang r2 s2)
            ↔ (∃ s1 s2, c :: s = (c :: s1) ++ s2 ∧ lang r1 (c :: s1) ∧ lang r2 s2)) as Hcat.
    { split; intros (s1 & s2 & Hs & H1 & H2); exists s1, s2.
      - rewrite <-IH1. by subst.
      - rewrite IH1. by simplify_eq/=. }
    destruct (nullable r1) eqn:Hn; simpl; rewrite ?Hcat, ?IH2.
    + split.
      * intros [(s1 & s2 & Hs & H1 & H2)|H2]; [by eauto|].
        exists [], (c :: s). by rewrite <-nullable_lang.
      * intros (s1 & s2 & Hs & H1 & H2). destruct s1 as [|c' s1]; simpl in Hs.
        -- right. by subst.
        -- left. simplify_eq. by exists s1, s2.
    + split.
      * intros (s1 & s2 & Hs & H1 & H2). eauto.
      * intros (s1 & s2 & Hs & H1 & H2). destruct s1 as [|c' s1]; simpl in Hs.
        -- apply nullable_lang in H1. congruence.
        -- simplify_eq. by exists s1, s2.
  - by rewrite IH1, IH2.
Qed.

Lemma test_lang r s : test r s = true ↔ lang r s.
Proof.
  revert r. induction s as [|c s IH]; intros r; simpl.
  - apply nullable_lang.
  - by rewrite IH, deriv_lang.
Qed.

Lemma test_false r s : ¬ lang r s → test r s = false.
Proof. rewrite <-test_lang. by destruct (test r s). Qed.

(** A string of [r{n}] for a class: [n] code units of the class. *)
Lemma lang_times_class n p s :
  lang (times n (Class p)) s ↔ length s = n ∧ Forall (λ c, p c = true) s.
Proof.
  revert s. induction n as [|n IH]; intros s; simpl.
  - split; [by intros ->|]. intros [Hl _]. by apply nil_length_inv.
  - split.
    + intros (s1 & s2 & -> & (c & -> & Hp) & H2). apply IH in H2 as [<- H2].
      split; [done|]. by constructor.
    + intros [Hl Hs]. destruct s as [|c s]; [done|]. simplify_eq/=.
      apply Forall_cons in Hs as [Hp Hs].
      exists [c], s. repeat split; [eauto|]. by apply IH.
Qed.

(** A string of [r{0,k}] for a class: at most [k] code units of the class. *)
Lemma lang_upto_class k p s :
  lang (upto k (Class p)) s ↔ length s ≤ k ∧ Forall (λ c, p c = true) s.
Proof.
  revert s. induction k as [|k IH]; intros s; simpl.
  - split; [by intros ->|]. intros [Hl _]. apply nil_length_inv. lia.
  - split.
    + intros [(s1 & s2 & -> & (c & -> & Hp) & H2)| ->]; [|split; [simpl; lia|done]].
      apply IH in H2 as [Hl H2]. split; [simpl; lia|]. by constructor.
    + intros [Hl Hs]. destruct s as [|c s]; [by right|]. left.
      apply Forall_cons in Hs as [Hp Hs]. simpl in Hl.
      exists [c], s. repeat split; [eauto|]. apply IH. split; [lia|done].
Qed.

Lemma lang_range_class m n p s :
  m ≤ n →
  lang (range m n (Class p)) s ↔ m ≤ length s ≤ n ∧ Forall (λ c, p c = true) s.
Proof.
  intros Hmn. unfold range. simpl. split.
  - intros (s1 & s2 & -> & [H1 F1]%lang_times_class & [H2 F2]%lang_upto_class).
    rewrite length_app. split; [lia|]. by apply Forall_app.
  - intros [Hl Hs]. exists (take m s), (drop m s).
    rewrite take_drop. split; [done|]. split.
    + apply lang_times_class. rewrite length_take. split; [lia|]. by apply Forall_take.
    + apply lang_upto_class. rewrite length_drop. split; [lia|]. by apply Forall_drop.
Qed.

(** The first code unit of a string of [Class p +> r] is of the class. *)
Lemma lang_class_cat_head p r s :
  lang (Cat (Class p) r) s → ∃ c s', s = c :: s' ∧ p c = true ∧ lang r s'.
Proof. intros (s1 & s2 & -> & (c & -> & Hp) & H2). eauto. Qed.

End RegexFacts.

(** ** Trimming *)

Section Trim.
Import Js Spec.

Lemma trimStart_head s c : head (trimStart s) = Some c → is_ws c = false.
Proof.
  induction s as [|c' s IH]; simpl; [done|].
  destruct (is_ws c') eqn:Hc; [done|]. simpl. by intros [= <-].
Qed.

Lemma trimStart_fixed s : (∀ c, head s = Some c → is_ws c = false) → trimStart s = s.
Proof. destruct s as [|c s]; simpl; [done|]. intros H. by rewrite (H c). Qed.

Lemma trimEnd_prefix s : trimEnd s `prefix_of` s.
Proof.
  induction s as [|c s IH]; simpl; [done|].
  destruct (trimEnd s) as [|c' r] eqn:Hr.
  - destruct (is_ws c); [apply prefix_nil|]. apply prefix_cons, prefix_nil.
  - by apply prefix_cons.
Qed.

Lemma trimEnd_last s c : last (trimEnd s) = Some c → is_ws c = false.
Proof.
  induction s as [|c' s IH]; simpl; [done|].
  destruct (trimEnd s) as [|c'' r] eqn:Hr.
  - destruct (is_ws c') eqn:Hc; simpl; [done|]. by intros [= <-].
  - done.
Qed.

Lemma trimEnd_fixed s : (∀ c, last s = Some c → is_ws c = false) → trimEnd s = s.
Proof.
  induction s as [|c s IH]; simpl; [done|]. intros H.
  destruct s as [|c' s].
  - simpl. by rewrite (H c).
  - rewrite IH by done. done.
Qed.

Lemma trim_trimmed s : trimmed (trim s).
Proof.
  unfold trim. split; intros c Hc.
  - destruct (trimEnd_prefix (trimStart s)) as [t Ht].
    apply (trimStart_head s). rewrite Ht.
    destruct (trimEnd (trimStart s)); [done|]. done.
  - by eapply trimEnd_last.
Qed.

Lemma trim_fixed s : trimmed s → trim s = s.
Proof.
  intros [Hh Hl]. unfold trim. rewrite (trimStart_fixed s Hh). by apply trimEnd_fixed.
Qed.

Lemma trim_idemp s : trim (trim s) = trim s.
Proof. apply trim_fixed, trim_trimmed. Qed.

(** A string without white space is its own trim. *)
Lemma trim_no_ws s : Forall (λ c, is_ws c = false) s → trim s = s.
Proof.
  intros Hs. apply trim_fixed. split; intros c Hc.
  - apply head_Some_elem_of in Hc. by eapply Forall_forall in Hs.
  - apply last_Some_elem_of in Hc. by eapply Forall_forall in Hs.
Qed.

Lemma is_digit_not_ws c : is_digit c = true → is_ws c = false.
Proof.
  unfold is_digit, is_ws. intros [H1%N.leb_le H2%N.leb_le]%andb_true_iff.
  repeat match goal with
         | |- _ || _ = false => apply orb_false_iff; split
         | |- _ && _ = false => apply andb_false_iff
         end; rewrite ?N.eqb_neq, ?N.leb_gt; lia.
Qed.

Lemma is_digit_not_alpha c : is_digit c = true → is_alpha c = false.
Proof.
  unfold is_digit, is_alpha. intros [H1%N.leb_le H2%N.leb_le]%andb_true_iff.
  apply orb_false_iff; split; apply andb_false_iff; rewrite !N.leb_gt; lia.
Qed.

Lemma is_digit_lower c : is_digit c = true → ascii_lower c = c.
Proof.
  unfold is_digit, ascii_lower. intros [H1%N.leb_le H2%N.leb_le]%andb_true_iff.
  assert ((65 <=? c)%N = false) as -> by (apply N.leb_gt; lia). done.
Qed.

Lemma is_digit_ascii c : is_digit c = true → is_ascii c = true.
Proof.
  unfold is_digit, is_ascii. intros [H1%N.leb_le H2%N.leb_le]%andb_true_iff.
  apply N.ltb_lt. lia.
Qed.

End Trim.

(** ** The search classifier *)

Section Classifier.
Import Js Regex SearchDetector Spec.

(** [toLowerCase] is the engine's; on a string of code units below 128 it
    is the ASCII case mapping. *)
Variable toLowerCase : jsstring → jsstring.
Hypothesis toLowerCase_ascii :
  ∀ s, Forall (λ c, is_ascii c = true) s → toLowerCase s = ascii_lower <$> s.

(** The four branches of [detectSearchType] on a string. *)
Lemma detectSearchType_string input :
  detectSearchType toLowerCase (JStr input) =
    if bool_decide (trim input = []) then {| type := UNKNOWN; value := [] |}
    else if isZipCode (trim input) then {| type := ZIP_CODE; value := trim input |}
    else if isRegion toLowerCase (trim input) then {| type := REGION; value := trim input |}
    else {| type := CITY; value := trim input |}.
Proof. reflexivity. Qed.

(** C8: on every string [detectSearchType] answers with one of the four
    types: [unknown] exactly when the trimmed input is empty; otherwise
    [zip_code] exactly when a postal pattern matches, else [region] exactly
    when the region lists hold it, else [city]; the value of an answer that
    is not [unknown] is the trimmed input, is not empty and has no white
    space at its ends; and [New York] is a region. *)
Theorem detectSearchType_total input :
  type_name (type (detectSearchType toLowerCase (JStr input)))
    ∈ [js "zip_code"; js "city"; js "region"; js "unknown"]
  ∧ (type (detectSearchType toLowerCase (JStr input)) = UNKNOWN ↔ trim input = [])
  ∧ (type (detectSearchType toLowerCase (JStr input)) ≠ UNKNOWN →
       value (detectSearchType toLowerCase (JStr input)) = trim input
       ∧ value (detectSearchType toLowerCase (JStr input)) ≠ []
       ∧ trimmed (value (detectSearchType toLowerCase (JStr input)))
       ∧ trim (value (detectSearchType toLowerCase (JStr input))) = value (detectSearchType toLowerCase (JStr input)))
  ∧ (trim input ≠ [] →
       (type (detectSearchType toLowerCase (JStr input)) = ZIP_CODE ↔ isZipCode (trim input) = true)
       ∧ (type (detectSearchType toLowerCase (JStr input)) = REGION ↔
            isZipCode (trim input) = false ∧ isRegion toLowerCase (trim input) = true)
       ∧ (type (detectSearchType toLowerCase (JStr input)) = CITY ↔
            isZipCode (trim input) = false ∧ isRegion toLowerCase (trim input) = false))
  ∧ detectSearchType toLowerCase (JStr (js "New York")) = {| type := REGION; value := js "New York" |}.
Proof.
  rewrite detectSearchType_string.
  split; [|split; [|split; [|split]]].
  - repeat case_match; simpl; set_solver.
  - case_bool_decide as Ht; [done|].
    repeat case_match; simpl; split; done.
  - case_bool_decide as Ht; [done|]. intros _.
    assert (∀ t, value (if isZipCode (trim input) then {| type := ZIP_CODE; value := trim input |}
                 else if isRegion toLowerCase (trim input)
                      then {| type := REGION; value := trim input |}
                      else {| type := t; value := trim input |}) = trim input) as ->
      by (intros; by repeat case_match).
    repeat split; [done|apply trim_trimmed..|apply trim_idemp].
  - intros Ht. rewrite bool_decide_eq_false_2 by done.
    destruct (isZipCode (trim input)), (isRegion toLowerCase (trim input)); simpl;
      intuition congruence.
  - unfold detectSearchType, isRegion.
    assert (toLowerCase (trim (js "New York")) = js "new york") as Hlow.
    { rewrite toLowerCase_ascii; [by vm_compute|].
      apply (bool_decide_unpack _). by vm_compute. }
    rewrite Hlow. by vm_compute.
Qed.

(** No entry of the region lists starts with a digit. *)
Lemma regions_start_without_digit s :
  starts_with_digit s = true → includes US_STATES s = false ∧ includes COUNTRIES s = false.
Proof.
  intros Hs.
  assert (Forall (λ x, starts_with_digit x = false) (US_STATES ++ COUNTRIES)) as Hall.
  { apply (bool_decide_unpack _). by vm_compute. }
  apply Forall_app in Hall as [H1 H2].
  unfold includes. split; apply bool_decide_eq_false_2; intros Hin.
  - eapply Forall_forall in H1; [|exact Hin]. congruence.
  - eapply Forall_forall in H2; [|exact Hin]. congruence.
Qed.

(** A string of digits is a region for no engine. *)
Lemma isRegion_digits s :
  s ≠ [] → Forall (λ c, is_digit c = true) s → isRegion toLowerCase s = false.
Proof.
  intros Hne Hd. unfold isRegion.
  rewrite toLowerCase_ascii
    by (eapply Forall_impl; [exact Hd|]; intros; by apply is_digit_ascii).
  assert (ascii_lower <$> s = s) as ->.
  { induction Hd as [|c s Hc _ IH]; [done|]. simpl.
    rewrite is_digit_lower by done. f_equal. destruct s; [done|]. by apply IH. }
  destruct s as [|c s]; [done|]. apply Forall_cons in Hd as [Hc _].
  destruct (regions_start_without_digit (c :: s) Hc) as [-> ->]. done.
Qed.

(** A string of digits matches a postal pattern exactly when it has 4, 5 or
    6 digits. *)
Lemma isZipCode_digits s :
  Forall (λ c, is_digit c = true) s →
  isZipCode s = true ↔ 4 ≤ length s ≤ 6.
Proof.
  intros Hd.
  assert (test CANADIAN_POSTAL s = false) as Hca.
  { apply test_false. intros (c & s' & -> & Hc & _)%lang_class_cat_head.
    apply Forall_cons in Hd as [Hd _]. apply is_digit_not_alpha in Hd. congruence. }
  assert (test UK_POSTCODE s = false) as Huk.
  { apply test_false. unfold UK_POSTCODE, range. simpl.
    intros (s1 & s2 & -> & (s3 & s4 & -> & (s5 & s6 & -> & (c & -> & Hc) & _) & _) & _).
    apply Forall_cons in Hd as [Hd _]. apply is_digit_not_alpha in Hd. congruence. }
  assert (test US_ZIP s = true → length s = 5) as Hus.
  { rewrite test_lang. unfold US_ZIP.
    intros (s1 & s2 & -> & [H1 _]%lang_times_class & H2).
    destruct H2 as [(s3 & s4 & -> & (c & -> & Hc) & _)| ->].
    - apply Forall_app in Hd as [_ Hd]. apply Forall_cons in Hd as [Hd _].
      apply N.eqb_eq in Hc. subst c. done.
    - rewrite length_app. simpl. lia. }
  assert (test NUMERIC_POSTAL s = true ↔ 4 ≤ length s ≤ 6) as Hnum.
  { rewrite test_lang. unfold NUMERIC_POSTAL, d. rewrite lang_range_class by lia.
    split; [by intros [? _]|]. intros Hl. split; [lia|done]. }
  unfold isZipCode. rewrite Hca, Huk, !orb_false_r, orb_true_iff, Hnum.
  split; [|by right]. intros [H%Hus|H]; lia.
Qed.

(** C10: a string of digits with 1 to 3 digits or with 7 and more is
    classified as [city], with the input as its value. *)
Theorem detectSearchType_numeric_city input :
  Forall (λ c, is_digit c = true) input →
  1 ≤ length input ≤ 3 ∨ 7 ≤ length input →
  detectSearchType toLowerCase (JStr input) = {| type := CITY; value := input |}.
Proof.
  intros Hd Hlen. rewrite detectSearchType_string.
  assert (trim input = input) as ->.
  { apply trim_no_ws. eapply Forall_impl; [exact Hd|]. intros. by apply is_digit_not_ws. }
  assert (input ≠ []) as Hne by (intros ->; simpl in Hlen; lia).
  rewrite bool_decide_eq_false_2 by done.
  assert (isZipCode input = false) as ->.
  { destruct (isZipCode input) eqn:Hz; [|done].
    apply isZipCode_digits in Hz; [lia|done]. }
  by rewrite isRegion_digits.
Qed.

End Classifier.

Lemma detectSearchType_total_witness :
  SearchDetector.type
    (SearchDetector.detectSearchType Spec.ascii_toLowerCase (Js.JStr (Js.js "  Paris, France ")))
    = SearchDetector.CITY
  ∧ SearchDetector.value
      (SearchDetector.detectSearchType Spec.ascii_toLowerCase (Js.JStr (Js.js "  Paris, France ")))
    = Js.js "Paris, France".
Proof.
  pose proof (detectSearchType_total Spec.ascii_toLowerCase (λ s _, eq_refl)
                (Js.js "  Paris, France ")) as (_ & _ & Hv & _ & _).
  split; [by vm_compute|].
  etrans; [apply Hv; by vm_compute|]. by vm_compute.
Defined.

Lemma detectSearchType_numeric_city_witness :
  SearchDetector.detectSearchType Spec.ascii_toLowerCase (Js.JStr (Js.js "1234567"))
  = {| SearchDetector.type := SearchDetector.CITY; SearchDetector.value := Js.js "1234567" |}.
Proof.
  apply (detectSearchType_numeric_city Spec.ascii_toLowerCase (λ s _, eq_refl)
           (Js.js "1234567")).
  - apply (bool_decide_unpack _). by vm_compute.
  - right. vm_compute. lia.
Defined.

(** ** The sanitizer *)

Section Sanitizer.
Import Js SearchDetector Spec.

Lemma single_spaced_weaken b s : single_spaced b s → single_spaced false s.
Proof.
  destruct s as [|c s]; simpl; [done|].
  destruct (is_ws c); [|done]. intros (-> & -> & H). done.
Qed.

Lemma single_spaced_prefix b p t : single_spaced b (p ++ t) → single_spaced b p.
Proof.
  revert b. induction p as [|c p IH]; intros b; simpl; [done|].
  destruct (is_ws c); [|by apply IH]. intros (? & ? & ?). eauto.
Qed.

Lemma single_spaced_trimStart b s : single_spaced b s → single_spaced false (trimStart s).
Proof.
  revert b. induction s as [|c s IH]; intros b; simpl; [done|].
  destruct (is_ws c) eqn:Hc; simpl.
  - intros (_ & _ & H). by eapply IH.
  - by rewrite Hc.
Qed.

Lemma single_spaced_trim b s : single_spaced b s → single_spaced false (trim s).
Proof.
  intros H%single_spaced_trimStart. unfold trim.
  destruct (trimEnd_prefix (trimStart s)) as [t Ht]. rewrite Ht in H.
  by eapply single_spaced_prefix.
Qed.

Lemma single_spaced_take b n s : single_spaced b s → single_spaced b (take n s).
Proof. intros H. rewrite <-(take_drop n s) in H. by eapply single_spaced_prefix. Qed.

Lemma collapse_ws_from_single_spaced b s : single_spaced b (collapse_ws_from b s).
Proof.
  revert b. induction s as [|c s IH]; intros b; simpl; [done|].
  destruct (is_ws c) eqn:Hc.
  - destruct b; [apply IH|]. simpl. change (is_ws SPACE) with true. simpl. eauto.
  - simpl. rewrite Hc. apply IH.
Qed.

Lemma collapse_ws_from_fixed b s : single_spaced b s → collapse_ws_from b s = s.
Proof.
  revert b. induction s as [|c s IH]; intros b; simpl; [done|].
  destruct (is_ws c).
  - intros (-> & -> & H). by rewrite IH.
  - intros H. by rewrite IH.
Qed.

Lemma trimStart_suffix s : trimStart s `suffix_of` s.
Proof.
  induction s as [|c s IH]; simpl; [done|].
  destruct (is_ws c); [by apply suffix_cons_r|done].
Qed.

Lemma trim_sublist s : trim s `sublist_of` s.
Proof.
  unfold trim. destruct (trimEnd_prefix (trimStart s)) as [t Ht].
  destruct (trimStart_suffix s) as [p Hp].
  rewrite Hp at 2. rewrite Ht at 2.
  by apply sublist_inserts_l, sublist_inserts_r.
Qed.

Lemma Forall_trim (P : N → Prop) s : Forall P s → Forall P (trim s).
Proof.
  rewrite !Forall_forall. intros H c Hc. eapply H, elem_of_sublist; [exact Hc|].
  apply trim_sublist.
Qed.

Lemma length_trim s : length (trim s) ≤ length s.
Proof. apply sublist_length, trim_sublist. Qed.

Lemma collapse_ws_from_special b s :
  Forall (λ c, is_special c = false) s →
  Forall (λ c, is_special c = false) (collapse_ws_from b s).
Proof.
  intros H. revert b. induction H as [|c s Hc _ IH]; intros b; simpl; [done|].
  destruct (is_ws c); [destruct b|]; try constructor; auto.
Qed.

Lemma strip_special_special s : Forall (λ c, is_special c = false) (strip_special s).
Proof.
  unfold strip_special. apply Forall_forall. intros c Hc%list_elem_of_In%filter_In.
  destruct Hc as [_ Hc]. by apply negb_true_iff.
Qed.

Lemma strip_special_fixed s : Forall (λ c, is_special c = false) s → strip_special s = s.
Proof.
  unfold strip_special. induction 1 as [|c s Hc _ IH]; simpl; [done|].
  by rewrite Hc, IH.
Qed.

(** Without a [<] there is no tag to strip. *)
Lemma strip_tags_fixed s : Forall (λ c, is_special c = false) s → strip_tags s = s.
Proof.
  unfold strip_tags. induction 1 as [|c s Hc _ IH]; simpl; [done|].
  assert ((c =? LT)%N = false) as ->.
  { apply N.eqb_neq. intros ->. done. }
  simpl. by rewrite IH.
Qed.

(** What [sanitize_string] returns is clean. *)
Lemma sanitize_string_clean s : clean (sanitize_string s).
Proof.
  unfold sanitize_string.
  set (y := trim (collapse_ws (strip_special (strip_tags s)))).
  assert (Forall (λ c, is_special c = false) y) as Hsp.
  { apply Forall_trim, collapse_ws_from_special, strip_special_special. }
  assert (single_spaced false y) as Hss.
  { eapply single_spaced_trim, collapse_ws_from_single_spaced. }
  destruct (Nat.ltb_spec MAX_LENGTH (length y)) as [Hlen|Hlen].
  - unfold substring0. repeat split.
    + by apply Forall_trim, Forall_take.
    + by eapply single_spaced_trim, single_spaced_take.
    + apply trim_trimmed.
    + apply trim_trimmed.
    + etrans; [apply length_trim|]. rewrite length_take. lia.
  - repeat split; [done|done|apply trim_trimmed..|done].
Qed.

(** On a clean string [sanitize_string] changes nothing. *)
Lemma sanitize_string_fixed s : clean s → sanitize_string s = s.
Proof.
  intros (Hsp & Hss & Htr & Hlen). unfold sanitize_string, collapse_ws.
  rewrite strip_tags_fixed, strip_special_fixed, collapse_ws_from_fixed, trim_fixed by done.
  by rewrite (proj2 (Nat.ltb_ge _ _) Hlen).
Qed.

(** What [sanitizeSearchInput] returns is clean, whatever it is given. *)
Lemma sanitizeSearchInput_clean v : clean (sanitizeSearchInput v).
Proof.
  assert (clean []) as Hnil.
  { repeat split; simpl; try done. unfold MAX_LENGTH. lia. }
  destruct v; simpl; try done; apply sanitize_string_clean.
Qed.

(** C5: sanitizing what [sanitizeSearchInput] returned gives it back, and
    what it returns has at most 100 code units. *)
Theorem sanitizeSearchInput_idempotent (s : jsstring) :
  sanitizeSearchInput (JStr (sanitizeSearchInput (JStr s))) = sanitizeSearchInput (JStr s)
  ∧ length (sanitizeSearchInput (JStr s)) ≤ 100.
Proof.
  pose proof (sanitizeSearchInput_clean (JStr s)) as Hc. split.
  - by apply sanitize_string_fixed.
  - apply Hc.
Qed.

(** The same for an input of any type. *)
Lemma sanitizeSearchInput_idempotent_any (v : jsval) :
  sanitizeSearchInput (JStr (sanitizeSearchInput v)) = sanitizeSearchInput v
  ∧ length (sanitizeSearchInput v) ≤ 100.
Proof.
  pose proof (sanitizeSearchInput_clean v) as Hc. split.
  - by apply sanitize_string_fixed.
  - apply Hc.
Qed.

(** Examples of the tests and scenario (4) of the specification. *)
Example sanitizeSearchInput_examples :
  sanitizeSearchInput (JStr (js "  New   York  ")) = js "New York"
  ∧ sanitizeSearchInput (JStr (js "<b>New</b> <i>York</i>")) = js "New York"
  ∧ sanitizeSearchInput (JStr (js "New < York")) = js "New York"
  ∧ sanitizeSearchInput (JStr (js "New York;")) = js "New York"
  ∧ sanitizeSearchInput JNull = [].
Proof. by vm_compute. Qed.

End Sanitizer.

(** * Further properties *)

(** ** The provider client: preconditions, failures and success *)

Section ProviderClientMore.
Import Js WeatherApi Spec Extra.

Lemma validateConfig_usable apiKey : validateConfig apiKey = Return () ↔ usable_key apiKey.
Proof.
  unfold validateConfig, usable_key. destruct apiKey as [k|].
  - destruct (decide (k = [])) as [->|Hk].
    { simpl. split; [done|]. intros (k & [= <-] & Ht & _). done. }
    rewrite (bool_decide_eq_false_2 _ Hk). simpl.
    case_bool_decide as Hp; simpl.
    { split; [done|]. intros (k' & [= <-] & _ & Hne). done. }
    case_bool_decide as Ht; simpl.
    { split; [done|]. intros (k' & [= <-] & Hne & _). done. }
    split; [|done]. intros _. eauto.
  - split; [done|]. intros (k & [=] & _).
Qed.

Lemma validateConfig_unusable apiKey :
  ¬ usable_key apiKey →
  validateConfig apiKey = Throw (WeatherApiError MSG_CONFIG config None).
Proof.
  intros Hk. rewrite <-validateConfig_usable in Hk.
  unfold validateConfig in *. repeat case_match; done.
Qed.


Lemma fetch_try_typed net e :
  fetch_try net = Throw e →
  (∃ cause, net = FetchRejects cause ∧ e = cause)
  ∨ (typed e ∧ message e ∈ user_messages).
Proof.
  unfold fetch_try, typed, user_messages. destruct net as [cause|status json].
  - intros [= ->]. eauto.
  - right. destruct (ok status); simpl in *.
    + destruct json as [je|[[[l|] [c|] [f|]]|]]; simpl in *; simplify_eq;
        (split; [eauto|set_solver]).
    + simplify_eq. unfold http_error. repeat case_match; (split; [eauto|set_solver]).
Qed.


(** Its message is one of the seven, unless the network itself rejected
    with a [WeatherApiError]. *)
Lemma fetchWeatherData_throw_message apiKey net location e :
  fetchWeatherData apiKey net location = Throw e →
  message e ∈ user_messages
  ∨ ∃ m t o, net = FetchRejects (WeatherApiError m t o) ∧ e = WeatherApiError m t o.
Proof.
  unfold fetchWeatherData.
  destruct (validateConfig apiKey) as [[]|e0] eqn:Hc; simpl.
  - destruct location as [| | | | |l];
      try (intros [= <-]; left; unfold user_messages; set_solver).
    destruct (_ || _).
    { intros [= <-]. left; unfold user_messages; set_solver. }
    destruct (fetch_try net) as [d|e1] eqn:Ht; [done|]. intros [= <-].
    apply fetch_try_typed in Ht as [(cause & -> & ->)|[(m & t & o & ->) Hm]].
    + destruct cause as [m t o|m|m]; simpl.
      * right; eauto.
      * left; unfold user_messages; set_solver.
      * destruct (str_includes _ _); left; unfold user_messages; set_solver.
    + by left.
  - intros [= <-]. unfold validateConfig in Hc.
    repeat case_match; simplify_eq; left; unfold user_messages; set_solver.
Qed.



(** X2: the two checks come before the network. A key that is absent,
    blank or the placeholder gives the [config] error whatever the location
    and the network are; with a usable key, a location that is not a
    non-blank string gives the [validation] error whatever the network is. *)
Theorem fetchWeatherData_checks_first apiKey net location :
  (¬ usable_key apiKey →
     fetchWeatherData apiKey net location = Throw (WeatherApiError MSG_CONFIG config None))
  ∧ (usable_key apiKey → ¬ usable_location location →
       fetchWeatherData apiKey net location
       = Throw (WeatherApiError MSG_LOCATION_REQUIRED validation None)).
Proof.
  unfold fetchWeatherData. split.
  - intros Hk. by rewrite (validateConfig_unusable _ Hk).
  - intros Hk%validateConfig_usable Hl. rewrite Hk. simpl.
    destruct location as [| | | | |l]; try done.
    destruct (decide (trim l = [])) as [Ht|Ht].
    + rewrite (bool_decide_eq_true_2 _ Ht), orb_true_r. done.
    + exfalso. apply Hl. unfold usable_location. eauto.
Qed.

Lemma fetchWeatherData_checks_first_witness :
  fetchWeatherData (Some (js "your_api_key_here"))
    (FetchResolves 200 (JsonResolves (Some (sample_body [])))) (JStr (js "Oslo"))
  = Throw (WeatherApiError MSG_CONFIG config None).
Proof.
  apply (proj1 (fetchWeatherData_checks_first (Some (js "your_api_key_here"))
                  (FetchResolves 200 (JsonResolves (Some (sample_body []))))
                  (JStr (js "Oslo")))).
  intros (k & [= <-] & _ & Hne). apply Hne. reflexivity.
Defined.

Lemma usable_location_cases l :
  trim l ≠ [] → bool_decide (l = []) || bool_decide (trim l = []) = false.
Proof.
  intros Ht. rewrite (bool_decide_eq_false_2 _ Ht), orb_false_r.
  apply bool_decide_eq_false_2. by intros ->.
Qed.



(** X4: for a request that is sent, a rejection of [fetch] by anything but
    a [WeatherApiError] is wrapped: as a [network] error when the cause is a
    [TypeError] or has [fetch] in its message, as the generic [api_error]
    otherwise; the cause is kept as [originalError]. *)
Theorem fetchWeatherData_transport_failure apiKey location cause :
  usable_key apiKey → usable_location location → ¬ typed cause →
  fetchWeatherData apiKey (FetchRejects cause) location
  = Throw (if looks_like_network cause
           then WeatherApiError MSG_NETWORK network (Some cause)
           else WeatherApiError MSG_GENERIC api_error (Some cause)).
Proof.
  intros Hk%validateConfig_usable (l & -> & Ht) Hty.
  unfold fetchWeatherData. rewrite Hk. simpl. rewrite (usable_location_cases _ Ht). simpl.
  destruct cause as [m t o|m|m]; simpl; [|done|done].
  exfalso. apply Hty. unfold typed. eauto.
Qed.

Lemma fetchWeatherData_transport_failure_witness :
  fetchWeatherData (Some (js "test_api_key_12345"))
    (FetchRejects (TypeError (js "Failed to fetch"))) (JStr (js "Oslo"))
  = Throw (WeatherApiError MSG_NETWORK network (Some (TypeError (js "Failed to fetch")))).
Proof.
  apply (fetchWeatherData_transport_failure (Some (js "test_api_key_12345"))
           (JStr (js "Oslo")) (TypeError (js "Failed to fetch"))).
  - exists (js "test_api_key_12345"). repeat split; vm_compute; discriminate.
  - exists (js "Oslo"). split; [reflexivity|]. vm_compute. discriminate.
  - intros (m & t & o & [=]).
Defined.

(** X5: for a request that is sent and answered with a status from 200 to
    299, a body that does not parse gives the [validation] error with the
    parse failure as [originalError], and a body that parses but lacks one of
    the three sections gives the same error without a cause. *)
Theorem fetchWeatherData_invalid_body apiKey location status :
  usable_key apiKey → usable_location location → (200 ≤ status ≤ 299)%Z →
  (∀ cause,
     fetchWeatherData apiKey (FetchResolves status (JsonRejects cause)) location
     = Throw (WeatherApiError MSG_INVALID_RESPONSE validation (Some cause)))
  ∧ (∀ body, incomplete body →
       fetchWeatherData apiKey (FetchResolves status (JsonResolves body)) location
       = Throw (WeatherApiError MSG_INVALID_RESPONSE validation None)).
Proof.
  intros Hk%validateConfig_usable (l & -> & Ht) Hst.
  assert (ok status = true) as Hok.
  { unfold ok. apply andb_true_iff. rewrite !Z.leb_le. lia. }
  unfold fetchWeatherData. rewrite Hk. simpl. rewrite (usable_location_cases _ Ht).
  unfold fetch_try. rewrite Hok. simpl. split; [done|].
  intros [[[lo|] [cu|] [fo|]]|] Hinc; simpl in *; try done.
  destruct Hinc as [?|[?|?]]; done.
Qed.

Lemma fetchWeatherData_invalid_body_witness :
  fetchWeatherData (Some (js "test_api_key_12345"))
    (FetchResolves 200 (JsonResolves None)) (JStr (js "Oslo"))
  = Throw (WeatherApiError MSG_INVALID_RESPONSE validation None).
Proof.
  assert (usable_key (Some (js "test_api_key_12345"))) as Hk.
  { exists (js "test_api_key_12345"). repeat split; vm_compute; discriminate. }
  assert (usable_location (JStr (js "Oslo"))) as Hl.
  { exists (js "Oslo"). split; [reflexivity|]. vm_compute. discriminate. }
  apply (proj2 (fetchWeatherData_invalid_body (Some (js "test_api_key_12345"))
                  (JStr (js "Oslo")) 200 Hk Hl ltac:(lia)) None).
  exact I.
Defined.

End ProviderClientMore.

(** ** The normalizer: what the hourly window keeps and when it throws *)

Section NormalizerMore.
Import Js WeatherApi Spec Extra.

(** When the callback returns, it returns [at_or_after]. *)
Lemma split_1_Some_space s t : split_1 SPACE s = Some t → SPACE ∈ s.
Proof.
  unfold split_1. induction s as [|c s IH]; simpl; [done|].
  destruct (N.eqb_spec c SPACE) as [->|_]; [left|right; by apply IH].
Qed.

Lemma is_future_returns currentHour currentDate e b :
  is_future currentHour currentDate e = Return b →
  SPACE ∈ HourlyEntry.time e ∧ b = at_or_after currentDate currentHour e.
Proof.
  unfold is_future, at_or_after, entry_hour, entry_date.
  destruct (split_1 SPACE (HourlyEntry.time e)) as [t|] eqn:Ht; [|done]. simpl.
  intros Hb. split; [by eapply split_1_Some_space|].
  case_bool_decide as Hd; injection Hb as <-.
  - by rewrite Hd, str_lt_irrefl.
  - by rewrite orb_false_r.
Qed.

Lemma is_future_throws currentHour currentDate e :
  SPACE ∉ HourlyEntry.time e →
  is_future currentHour currentDate e
  = Throw (TypeError (js "Cannot read properties of undefined")).
Proof.
  intros Hsp. unfold is_future.
  destruct (split_1 SPACE (HourlyEntry.time e)) as [t|] eqn:Ht; [|done].
  exfalso. by eapply Hsp, split_1_Some_space.
Qed.

(** A filter that returns has kept what its callback said to keep. *)
Lemma filterC_returns {A} (f : A → Completion bool) (g : A → bool) l r :
  (∀ x b, f x = Return b → b = g x) →
  filterC f l = Return r → r = List.filter g l.
Proof.
  intros Hfg. revert r. induction l as [|x l IH]; simpl; intros r Hr; [by simplify_eq|].
  destruct (f x) as [b|] eqn:Hx; simpl in Hr; [|done].
  destruct (filterC f l) as [r'|]; simpl in Hr; [|done].
  simplify_eq. rewrite <-(Hfg _ _ Hx), <-(IH r') by done. done.
Qed.

(** A filter throws what its callback throws at the first entry where it
    throws. *)
Lemma filterC_throws {A} (f : A → Completion bool) l e :
  filterC f l = Throw e ↔ ∃ l1 x l2, l = l1 ++ x :: l2 ∧ f x = Throw e
                            ∧ Forall (λ y, ∃ b, f y = Return b) l1.
Proof.
  induction l as [|x l IH]; simpl.
  - split; [done|]. intros (l1 & y & l2 & Hl & _). by destruct l1.
  - destruct (f x) as [b|e'] eqn:Hx; simpl.
    + split.
      * destruct (filterC f l) as [r|e''] eqn:Hl; simpl; [done|]. intros [= ->].
        destruct (proj1 IH eq_refl) as (l1 & y & l2 & -> & Hy & Hall).
        exists (x :: l1), y, l2. repeat split; [done|]. constructor; eauto.
      * intros (l1 & y & l2 & Hl & Hy & Hall). destruct l1 as [|x' l1]; simplify_eq/=.
        -- congruence.
        -- apply Forall_cons in Hall as [_ Hall].
           assert (filterC f (l1 ++ y :: l2) = Throw e) as -> by (apply IH; eauto 10).
           done.
    + split.
      * intros [= ->]. exists [], x, l. by repeat split.
      * intros (l1 & y & l2 & Hl & Hy & Hall). destruct l1 as [|x' l1]; simplify_eq/=.
        -- congruence.
        -- apply Forall_cons in Hall as [[b Hb] _]. congruence.
Qed.

(** X6: what [transformHourlyForecast] returns is a sublist of the
    normalized flattened list: entries are dropped, none is altered and the
    order is kept. When the flattened list has more than 24 entries, what is
    returned is the first 24 of the entries dated after the UTC date of the
    clock, or on it at or after the local hour of the clock, and each returned
    entry is such an entry. *)
Theorem transformHourlyForecast_keeps now data r :
  transformHourlyForecast now data = Return r →
  r `sublist_of` hourly_entry <$> raw_hours data
  ∧ (24 < length (raw_hours data) →
       r = take 24 (List.filter (at_or_after (Date.toISOString_date now) (Date.getHours now))
                      (hourly_entry <$> raw_hours data))
       ∧ Forall (λ e, at_or_after (Date.toISOString_date now) (Date.getHours now) e = true) r).
Proof.
  intros Hr. split; [by eapply transformHourlyForecast_sublist|]. intros Hn.
  destruct (data_days_cases data) as [[Hd H]|[Hd H]]; rewrite H in Hr; simpl in Hr.
  { unfold raw_hours in Hn. rewrite Hd in Hn. simpl in Hn. lia. }
  rewrite collect_hours_data, length_fmap, (proj2 (Nat.leb_gt _ _) Hn) in Hr.
  destruct (filterC _ _) as [fut|] eqn:Hf; simpl in Hr; [|done]. simplify_eq.
  apply (filterC_returns _ (at_or_after (Date.toISOString_date now) (Date.getHours now)))
    in Hf; [|intros x b Hb; by apply is_future_returns in Hb as [_ ->]].
  split; [by rewrite Hf|].
  apply Forall_take. rewrite Hf. apply Forall_forall.
  intros e He%list_elem_of_In%filter_In. apply He.
Qed.

Lemma transformHourlyForecast_keeps_witness :
  hourly_entry <$> (sample_hour (JNum 0) (JNum 0) "2024-01-16" <$> seqZ 20 4)
    `sublist_of` hourly_entry <$> raw_hours two_days
  ∧ (24 < length (raw_hours two_days) →
       hourly_entry <$> (sample_hour (JNum 0) (JNum 0) "2024-01-16" <$> seqZ 20 4)
       = take 24 (List.filter (at_or_after (Date.toISOString_date evening_in_california)
                                 (Date.getHours evening_in_california))
                    (hourly_entry <$> raw_hours two_days))
       ∧ Forall (λ e, at_or_after (Date.toISOString_date evening_in_california)
                        (Date.getHours evening_in_california) e = true)
           (hourly_entry <$> (sample_hour (JNum 0) (JNum 0) "2024-01-16" <$> seqZ 20 4))).
Proof.
  apply (transformHourlyForecast_keeps evening_in_california two_days).
  vm_compute. reflexivity.
Defined.

(** What a throw of the window tells. *)
Lemma transformHourlyForecast_throw_inv now data e :
  transformHourlyForecast now data = Throw e →
  24 < length (raw_hours data)
  ∧ Exists (λ h, SPACE ∉ RawHour.time h) (raw_hours data)
  ∧ ∃ m, e = TypeError m.
Proof.
  intros He.
  destruct (Nat.leb_spec (length (raw_hours data)) 24) as [Hn|Hn].
  { rewrite transformHourlyForecast_short in He by done. done. }
  split; [done|].
  destruct (data_days_cases data) as [[Hd H]|[Hd H]]; rewrite H in He; simpl in He; [done|].
  rewrite collect_hours_data, length_fmap, (proj2 (Nat.leb_gt _ _) Hn) in He.
  destruct (filterC _ _) as [fut|e'] eqn:Hf; simpl in He; [done|]. simplify_eq.
  apply filterC_throws in Hf as (l1 & x & l2 & Hl & Hx & _).
  assert (x ∈ hourly_entry <$> raw_hours data) as Hin by (rewrite Hl; set_solver).
  apply list_elem_of_fmap in Hin as (h & -> & Hh).
  destruct (decide (SPACE ∈ RawHour.time h)) as [Hsp|Hsp].
  - rewrite is_future_at_or_after in Hx by done. done.
  - rewrite is_future_throws in Hx by done. simplify_eq.
    split; [|eauto]. apply Exists_exists. eauto.
Qed.





End NormalizerMore.

(** ** The store: first rejection, success, persistence, relative time *)

Section StoreMore.
Import Js WeatherApi WeatherStore Spec Extra.

(** X9: [Promise.all] rejects exactly when one of the three promises is
    rejected, and the reason it rejects with is the reason of a rejected
    promise that no other rejected promise precedes in time. *)
Theorem promise_all_first_rejection legs :
  ((∃ e, promise_all legs = Throw e) ↔ some_leg_fails legs)
  ∧ (∀ e, promise_all legs = Throw e →
       ∃ t, (t, e) ∈ rejections legs
            ∧ ∀ t' e', (t', e') ∈ rejections legs → t ≤ t').
Proof.
  split; [split|].
  - intros [e He]. unfold some_leg_fails, rejected.
    apply promise_all_reason in He as [?|[?|?]]; eauto.
  - apply promise_all_rejects.
  - intros e. unfold promise_all, rejections.
    destruct (currentLeg legs) as [c|ec], (hourlyLeg legs) as [h|eh],
      (dailyLeg legs) as [d|ed]; simpl; try done;
      repeat match goal with
             | |- context [(?a <? ?b)%nat] => destruct (Nat.ltb_spec a b); simpl
             end;
      intros [= <-]; eexists;
      (split; [first [by left | by (right; left) | by (right; right; left)]|]);
      intros t' e'; rewrite ?elem_of_cons, elem_of_nil; intros H';
      repeat match goal with
             | H : _ ∨ _ |- _ => destruct H
             | H : (_, _) = (_, _) |- _ => injection H as -> ->
             | H : False |- _ => destruct H
             end; lia.
Qed.

Lemma promise_all_first_rejection_witness :
  ∃ t, (t, WeatherApiError MSG_NOT_FOUND not_found None) ∈ rejections failing_legs
       ∧ ∀ t' e', (t', e') ∈ rejections failing_legs → t ≤ t'.
Proof.
  apply (proj2 (promise_all_first_rejection failing_legs)
           (WeatherApiError MSG_NOT_FOUND not_found None)).
  reflexivity.
Defined.

Lemma classic_typed e : typed e ∨ ¬ typed e.
Proof.
  unfold typed. destruct e as [m t o|m|m]; [left; eauto|right|right];
    intros (? & ? & ? & [=]).
Qed.

Lemma provider_legs_reason env q e :
  network_is_untyped env →
  promise_all (provider_legs env q) = Throw e →
  (typed e ∧ message e ∈ user_messages) ∨ ¬ typed e.
Proof.
  intros Hnet He. destruct (classic_typed e) as [Hty|Hty]; [left|by right].
  split; [done|].
  apply promise_all_reason in He as [He|[He|He]]; simpl in He.
  - unfold getCurrentWeather in He.
    destruct (WeatherApi.fetchWeatherData (apiKey env) (netCurrent env) q) as [d|e0] eqn:Hf;
      simpl in He; [done|]. simplify_eq.
    apply fetchWeatherData_throw_message in Hf as [?|(m & t & o & Hn & _)]; [done|].
    exfalso. eapply (Hnet (netCurrent env)); [set_solver|exact Hn|]. unfold typed. eauto.
  - unfold getHourlyForecast in He.
    destruct (WeatherApi.fetchWeatherData (apiKey env) (netHourly env) q) as [d|e0] eqn:Hf;
      simpl in He.
    + destruct (transformHourlyForecast (clock env) d) as [r|e1] eqn:Ht; simpl in He; [done|].
      simplify_eq. apply transformHourlyForecast_throw_inv in Ht as (_ & _ & m & ->).
      destruct Hty as (? & ? & ? & [=]).
    + simplify_eq.
      apply fetchWeatherData_throw_message in Hf as [?|(m & t & o & Hn & _)]; [done|].
      exfalso. eapply (Hnet (netHourly env)); [set_solver|exact Hn|]. unfold typed. eauto.
  - unfold getDailyForecast in He.
    destruct (WeatherApi.fetchWeatherData (apiKey env) (netDaily env) q) as [d|e0] eqn:Hf;
      simpl in He; [done|]. simplify_eq.
    apply fetchWeatherData_throw_message in Hf as [?|(m & t & o & Hn & _)]; [done|].
    exfalso. eapply (Hnet (netDaily env)); [set_solver|exact Hn|]. unfold typed. eauto.
Qed.

(** X10: after [fetchWeatherData] has run against the provider client,
    [error] is empty or holds one of the seven fixed messages of the client,
    as long as the network itself does not reject with a [WeatherApiError]:
    no other text reaches the state. *)
Theorem fetchWeatherData_in_error_message env q s :
  network_is_untyped env →
  error (state (fetchWeatherData_in env q s)) = None
  ∨ ∃ m, error (state (fetchWeatherData_in env q s)) = Some m ∧ m ∈ user_messages.
Proof.
  intros Hnet. unfold fetchWeatherData_in, fetchWeatherData, fetch_settle.
  destruct (promise_all (provider_legs env q)) as [[[c h] d]|e] eqn:Hall.
  - left. unfold fetch_commit, saveLastLocation. by destruct (setItem _ _ _).
  - right. destruct (provider_legs_reason _ _ _ Hnet Hall) as [[(m & t & o & ->) Hm]|Hty].
    + exists m. by split.
    + exists MSG_GENERIC. split; [|unfold user_messages; set_solver].
      destruct e as [m t o|m|m]; [|done|done]. exfalso. apply Hty. unfold typed. eauto.
Qed.

Lemma fetchWeatherData_in_error_message_witness :
  error (state (fetchWeatherData_in daily_request_fails (JStr (js "Oslo")) idle_store)) = None
  ∨ ∃ m, error (state (fetchWeatherData_in daily_request_fails (JStr (js "Oslo")) idle_store))
         = Some m ∧ m ∈ user_messages.
Proof.
  apply (fetchWeatherData_in_error_message daily_request_fails (JStr (js "Oslo")) idle_store).
  intros net cause Hin Hnet. simpl in Hin.
  rewrite !elem_of_cons, elem_of_nil in Hin.
  destruct Hin as [->|[->|[->|[]]]]; discriminate Hnet.
Defined.

Lemma promise_all_fulfilled_legs legs c h d :
  currentLeg legs = Return c → hourlyLeg legs = Return h → dailyLeg legs = Return d →
  promise_all legs = Return (c, h, d).
Proof. intros Hc Hh Hd. unfold promise_all. by rewrite Hc, Hh, Hd. Qed.

(** X11: when the three promises are fulfilled, the state after
    [fetchWeatherData] holds the weather of the current call, the hours of
    the hourly call, the days of the daily call, the location of the current
    call (those of the two other calls are dropped), the clock as
    [lastUpdated], no error and no loading flag, whatever it held before and
    whether or not the storage accepts the write; the storage gets the query
    written under the key when it accepts writes and stays as it was when it
    throws. *)
Theorem fetchWeatherData_success now legs q s c h d :
  currentLeg legs = Return c → hourlyLeg legs = Return h → dailyLeg legs = Return d →
  state (fetchWeatherData now legs q s)
  = {| currentWeather := Some c.1; hourlyForecast := h.1; dailyForecast := d.1;
       location := Some c.2; isLoading := false; error := None;
       lastUpdated := Some now |}
  ∧ localStorage (fetchWeatherData now legs q s)
    = if throws (localStorage s) then localStorage s
      else {| items := <[STORAGE_KEY := to_String q]> (items (localStorage s));
              throws := false;
              written := (STORAGE_KEY, to_String q) :: written (localStorage s) |}.
Proof.
  intros Hc Hh Hd. unfold fetchWeatherData, fetch_settle.
  rewrite (promise_all_fulfilled_legs _ _ _ _ Hc Hh Hd).
  unfold fetch_commit, saveLastLocation, setItem. simpl.
  destruct (throws (localStorage s)) eqn:Hth; simpl; by rewrite ?Hth.
Qed.

Lemma fetchWeatherData_success_witness :
  state (fetchWeatherData 1705377600000 fulfilled_legs (JStr (js "Oslo")) store_without_storage)
  = {| currentWeather := Some (transformCurrentWeather (sample_data []));
       hourlyForecast := []; dailyForecast := [];
       location := Some (transformLocation (sample_data []));
       isLoading := false; error := None; lastUpdated := Some 1705377600000%Z |}
  ∧ localStorage
      (fetchWeatherData 1705377600000 fulfilled_legs (JStr (js "Oslo")) store_without_storage)
    = localStorage store_without_storage.
Proof.
  apply (fetchWeatherData_success 1705377600000 fulfilled_legs (JStr (js "Oslo"))
           store_without_storage _ _ _ eq_refl eq_refl eq_refl).
Defined.

(** X12: what [loadLastLocation] reads after [fetchWeatherData] is the
    query of the call, as a string, when the three promises were fulfilled and
    the storage took the write; it is what it read before the call when one
    of the promises was rejected. *)
Theorem loadLastLocation_after_fetch now legs q s :
  (fulfilled (currentLeg legs) → fulfilled (hourlyLeg legs) → fulfilled (dailyLeg legs) →
   throws (localStorage s) = false →
   loadLastLocation (fetchWeatherData now legs q s) = Some (to_String q))
  ∧ (some_leg_fails legs →
     loadLastLocation (fetchWeatherData now legs q s) = loadLastLocation s).
Proof.
  split.
  - intros [c Hc] [h Hh] [d Hd] Hth. unfold fetchWeatherData, fetch_settle.
    rewrite (promise_all_fulfilled_legs _ _ _ _ Hc Hh Hd).
    unfold fetch_commit, saveLastLocation, setItem, loadLastLocation, getItem. simpl.
    rewrite Hth. simpl. by rewrite lookup_insert_eq.
  - intros [e He]%promise_all_rejects. unfold fetchWeatherData, fetch_settle.
    rewrite He. by destruct e.
Qed.

Lemma loadLastLocation_after_fetch_witness :
  loadLastLocation (fetchWeatherData 1705377600000 fulfilled_legs (JStr (js "Oslo")) idle_store)
  = Some (js "Oslo").
Proof.
  apply (proj1 (loadLastLocation_after_fetch 1705377600000 fulfilled_legs
                  (JStr (js "Oslo")) idle_store));
    first [eexists; reflexivity | reflexivity].
Defined.

(** X13: [initializeStore] fetches the stored location when the storage
    holds a string that is not empty under the key, and the default location
    [San Francisco] when the storage throws, has nothing under the key or
    holds the empty string. *)
Theorem initializeStore_location env s :
  (∀ l, throws (localStorage s) = false →
        items (localStorage s) !! STORAGE_KEY = Some l → l ≠ [] →
        initializeStore env s = fetchWeatherData_in env (JStr l) s)
  ∧ (throws (localStorage s) = true
     ∨ items (localStorage s) !! STORAGE_KEY = None
     ∨ items (localStorage s) !! STORAGE_KEY = Some [] →
     initializeStore env s = fetchWeatherData_in env (JStr (js "San Francisco")) s).
Proof.
  unfold initializeStore, loadLastLocation, getItem. split.
  - intros l Hth Hl Hne. rewrite Hth, Hl. simpl. unfold js_or. simpl.
    by rewrite (bool_decide_eq_false_2 _ Hne).
  - destruct (throws (localStorage s)); [done|].
    intros [?|[->| ->]]; done.
Qed.

Lemma initializeStore_location_witness :
  initializeStore daily_request_fails store_without_storage
  = fetchWeatherData_in daily_request_fails (JStr (js "San Francisco")) store_without_storage.
Proof.
  apply (proj2 (initializeStore_location daily_request_fails store_without_storage)).
  left. reflexivity.
Defined.

(** X22: two calls that overlap. Both have run up to their [await] when
    the first settles. Then the loading flag is already down although the
    second call is still pending; when the second call settles with three
    fulfilled promises, the four weather fields and [lastUpdated] are all
    those of the second call, none of the first, and [error] is what the
    first call left, so the message of a failed first call stays; when it
    settles with a rejected promise, the weather fields are what the first
    call left. *)
Theorem overlapping_fetches nowA nowB qA qB legsA legsB s :
  let s1 := fetch_settle nowA qA legsA (fetch_begin (fetch_begin s)) in
  let s2 := fetch_settle nowB qB legsB s1 in
  isLoading (state s1) = false
  ∧ (∀ c h d,
       currentLeg legsB = Return c → hourlyLeg legsB = Return h →
       dailyLeg legsB = Return d →
       state s2 = {| currentWeather := Some c.1; hourlyForecast := h.1;
                     dailyForecast := d.1; location := Some c.2; isLoading := false;
                     error := error (state s1); lastUpdated := Some nowB |})
  ∧ (some_leg_fails legsB →
       currentWeather (state s2) = currentWeather (state s1)
       ∧ hourlyForecast (state s2) = hourlyForecast (state s1)
       ∧ dailyForecast (state s2) = dailyForecast (state s1)
       ∧ location (state s2) = location (state s1)
       ∧ lastUpdated (state s2) = lastUpdated (state s1)
       ∧ localStorage s2 = localStorage s1).
Proof.
  cbv zeta. split; [reflexivity|]. split.
  - intros c h d Hc Hh Hd. unfold fetch_settle at 1.
    rewrite (promise_all_fulfilled_legs _ _ _ _ Hc Hh Hd).
    unfold fetch_commit, saveLastLocation. by destruct (setItem _ _ _).
  - apply fetch_settle_failure_frame.
Qed.

Lemma overlapping_fetches_witness :
  state (fetch_settle 2000 (JStr (js "Oslo")) fulfilled_legs
           (fetch_settle 1000 (JStr (js "Nowhere")) failing_legs
              (fetch_begin (fetch_begin idle_store))))
  = {| currentWeather := Some (transformCurrentWeather (sample_data []));
       hourlyForecast := []; dailyForecast := [];
       location := Some (transformLocation (sample_data []));
       isLoading := false; error := Some MSG_NOT_FOUND; lastUpdated := Some 2000%Z |}.
Proof.
  apply (proj1 (proj2 (overlapping_fetches 1000 2000 (JStr (js "Nowhere")) (JStr (js "Oslo"))
                         failing_legs fulfilled_legs idle_store)) _ _ _
           eq_refl eq_refl eq_refl).
Defined.

(** X23: [refreshWeather] fetches the city of the location the store holds
    when that city is a truthy value, and the default location
    [San Francisco] when the store holds no location or a city that is
    absent, [null] or the empty string. *)
Theorem refreshWeather_location env s :
  (∀ loc, location (state s) = Some loc → truthy (Location.city loc) = true →
          refreshWeather env s = fetchWeatherData_in env (Location.city loc) s)
  ∧ (location (state s) = None
     ∨ (∃ loc, location (state s) = Some loc ∧ truthy (Location.city loc) = false) →
     refreshWeather env s = fetchWeatherData_in env (JStr (js "San Francisco")) s).
Proof.
  unfold refreshWeather, js_or. split.
  - intros loc -> Ht. simpl. by rewrite Ht.
  - intros [->|(loc & -> & Ht)]; simpl; [done|by rewrite Ht].
Qed.

Lemma refreshWeather_location_witness :
  refreshWeather daily_request_fails idle_store
  = fetchWeatherData_in daily_request_fails (JStr (js "San Francisco")) idle_store.
Proof.
  apply (proj2 (refreshWeather_location daily_request_fails idle_store)).
  left. reflexivity.
Defined.

Local Open Scope Z_scope.

(** X14: the text of [formattedLastUpdated] as a function of the elapsed
    time. Without a [lastUpdated], or with 0, it is [Never]. Otherwise, with
    the elapsed milliseconds rounded down to whole units: below 30 seconds
    [Just now]; from 30 to 59 seconds the seconds; one minute in the singular
    and 2 to 59 minutes in the plural; one hour in the singular and 2 to 23
    hours in the plural; one day in the singular and 2 days and more in the
    plural. A count of 0, a negative count and a plural after 1 do not
    occur. *)
Theorem formattedLastUpdated_reads now st :
  (lastUpdated st = None ∨ lastUpdated st = Some 0 →
   formattedLastUpdated now st = js "Never")
  ∧ (∀ t, lastUpdated st = Some t → t ≠ 0 →
       reads_as (now - t) (formattedLastUpdated now st)).
Proof.
  unfold formattedLastUpdated. split.
  - intros [-> | ->]; reflexivity.
  - intros t -> Hne. rewrite (proj2 (Z.eqb_neq _ _) Hne).
    set (e := now - t). cbv zeta.
    destruct (Z.ltb_spec (e / 1000) 30).
    { apply reads_just_now. Z.div_mod_to_equations. lia. }
    destruct (Z.ltb_spec (e / 1000) 60).
    { apply reads_seconds; Z.div_mod_to_equations; lia. }
    destruct (Z.eqb_spec (e / 1000 / 60) 1).
    { apply reads_minute. Z.div_mod_to_equations. lia. }
    destruct (Z.ltb_spec (e / 1000 / 60) 60).
    { apply reads_minutes; Z.div_mod_to_equations; lia. }
    destruct (Z.eqb_spec (e / 1000 / 60 / 60) 1).
    { apply reads_hour. Z.div_mod_to_equations. lia. }
    destruct (Z.ltb_spec (e / 1000 / 60 / 60) 24).
    { apply reads_hours; Z.div_mod_to_equations; lia. }
    destruct (Z.eqb_spec (e / 1000 / 60 / 60 / 24) 1).
    { apply reads_day. Z.div_mod_to_equations. lia. }
    apply reads_days; Z.div_mod_to_equations; lia.
Qed.

Lemma formattedLastUpdated_reads_witness :
  reads_as (1705377600000 - 1705370000000)
    (formattedLastUpdated 1705377600000 (state_updated_at 1705370000000)).
Proof.
  apply (proj2 (formattedLastUpdated_reads 1705377600000 (state_updated_at 1705370000000))
           1705370000000); [reflexivity|lia].
Defined.

End StoreMore.

(** ** The sanitizer and the validator *)

Section SanitizerMore.
Import Js SearchDetector Spec Extra.

Lemma is_special_list c :
  is_special c = false → c ∉ [60; 62; 39; 34; 96; 59; 92]%N.
Proof.
  intros Hc Hin. rewrite !elem_of_cons, elem_of_nil in Hin.
  destruct Hin as [->|[->|[->|[->|[->|[->|[->|[]]]]]]]]; discriminate Hc.
Qed.

(** In a single-spaced string a white space is a space and what follows it
    is not white space. *)
Lemma single_spaced_lookup b s i c :
  single_spaced b s → s !! i = Some c → is_ws c = true →
  c = SPACE ∧ ∀ c', s !! S i = Some c' → is_ws c' = false.
Proof.
  revert b i. induction s as [|x s IH]; intros b i Hs Hi Hc; [done|].
  destruct i as [|i]; simpl in *.
  - injection Hi as ->. rewrite Hc in Hs. destruct Hs as (-> & _ & Hs).
    split; [done|]. intros c' Hc'. destruct s as [|y s]; [done|].
    simpl in *. injection Hc' as ->. destruct (is_ws c'); [|done].
    by destruct Hs as (_ & ? & _).
  - destruct (is_ws x).
    + destruct Hs as (_ & _ & Hs). by eapply IH.
    + by eapply IH.
Qed.

(** X15: whatever it is given, [sanitizeSearchInput] returns a string with
    none of the seven characters it removes (less-than, greater-than, the two
    quotes, backtick, semicolon, backslash), in which every white space is a
    space that is followed by something else than white space, and which
    neither starts nor ends with white space. *)
Theorem sanitizeSearchInput_output v :
  Forall (λ c, c ∉ [60; 62; 39; 34; 96; 59; 92]%N) (sanitizeSearchInput v)
  ∧ (∀ i c, sanitizeSearchInput v !! i = Some c → is_ws c = true →
       c = SPACE ∧ ∃ c', sanitizeSearchInput v !! S i = Some c' ∧ is_ws c' = false)
  ∧ (∀ c, head (sanitizeSearchInput v) = Some c → is_ws c = false)
  ∧ (∀ c, last (sanitizeSearchInput v) = Some c → is_ws c = false).
Proof.
  destruct (sanitizeSearchInput_clean v) as (Hsp & Hss & [Hh Hl] & _).
  split; [|split; [|split; [exact Hh|exact Hl]]].
  - eapply Forall_impl; [exact Hsp|]. intros c. apply is_special_list.
  - intros i c Hi Hc.
    destruct (single_spaced_lookup _ _ _ _ Hss Hi Hc) as [-> Hnext].
    split; [done|].
    destruct (sanitizeSearchInput v !! S i) as [c'|] eqn:Hi'; [eauto|].
    exfalso. apply lookup_ge_None in Hi'.
    assert (last (sanitizeSearchInput v) = Some SPACE) as Hlast.
    { rewrite last_lookup. rewrite <-Hi. f_equal.
      apply lookup_lt_Some in Hi. lia. }
    by apply Hl in Hlast.
Qed.

Lemma sanitizeSearchInput_output_witness :
  SPACE = SPACE
  ∧ ∃ c', sanitizeSearchInput (JStr (js "  New   York  ")) !! 4 = Some c' ∧ is_ws c' = false.
Proof.
  apply (proj1 (proj2 (sanitizeSearchInput_output (JStr (js "  New   York  ")))) 3 SPACE);
    reflexivity.
Defined.

(** The validator on a string, in terms of the sanitizer. *)
Lemma validateSearchInput_string (x : jsstring) :
  validateSearchInput (JStr x) =
    if (length (sanitizeSearchInput (JStr x)) =? 0)%nat
    then Invalid (js "Search input is required")
    else if (length (sanitizeSearchInput (JStr x)) <? 2)%nat
         then Invalid (js "Search input must be at least 2 characters")
         else Valid.
Proof. unfold validateSearchInput. case_bool_decide as Hx; [by subst|done]. Qed.

Lemma validateSearchInput_Valid (x : jsstring) :
  validateSearchInput (JStr x) = Valid ↔ 2 ≤ length (sanitizeSearchInput (JStr x)).
Proof.
  rewrite validateSearchInput_string.
  destruct (Nat.eqb_spec (length (sanitizeSearchInput (JStr x))) 0) as [->|?];
    [split; [done|lia]|].
  destruct (Nat.ltb_spec (length (sanitizeSearchInput (JStr x))) 2);
    split; (done || lia).
Qed.

Lemma sanitizeSearchInput_fixed (x : jsstring) :
  sanitizeSearchInput (JStr (sanitizeSearchInput (JStr x))) = sanitizeSearchInput (JStr x).
Proof. simpl. by rewrite (sanitize_string_fixed _ (sanitize_string_clean x)). Qed.

(** X16: [validateSearchInput] accepts a string exactly when what
    [sanitizeSearchInput] makes of it has two code units or more, and it
    answers the same for a string and for its sanitized form. *)
Theorem validateSearchInput_sanitized (s : jsstring) :
  (validateSearchInput (JStr s) = Valid ↔ 2 ≤ length (sanitizeSearchInput (JStr s)))
  ∧ validateSearchInput (JStr (sanitizeSearchInput (JStr s))) = validateSearchInput (JStr s).
Proof.
  split; [apply validateSearchInput_Valid|].
  by rewrite !validateSearchInput_string, sanitizeSearchInput_fixed.
Qed.

Lemma validateSearchInput_sanitized_witness :
  2 ≤ length (sanitizeSearchInput (JStr (js "  Oslo ;"))).
Proof.
  apply (proj1 (proj1 (validateSearchInput_sanitized (js "  Oslo ;")))).
  vm_compute. reflexivity.
Defined.

End SanitizerMore.

(** ** The classifier: patterns against regions, and letter case *)

Section RegexMore.
Import Js Regex Extra.

Lemma lang_classes_within P r s : classes_within P r → lang r s → Forall P s.
Proof.
  revert s. induction r as [| |q|a IHa b IHb|a IHa b IHb]; intros s; simpl.
  - done.
  - by intros _ ->.
  - intros Hq (c & -> & Hc). constructor; [by apply Hq|done].
  - intros [Ha Hb] (s1 & s2 & -> & H1 & H2). apply Forall_app. split; eauto.
  - intros [Ha Hb] [H|H]; eauto.
Qed.

Lemma lang_every_match_has P r s : every_match_has P r → lang r s → Exists P s.
Proof.
  revert s. induction r as [| |q|a IHa b IHb|a IHa b IHb]; intros s; simpl.
  - done.
  - done.
  - intros Hq (c & -> & Hc). left. by apply Hq.
  - intros [Ha|Hb] (s1 & s2 & -> & H1 & H2); apply Exists_app; [left|right]; eauto.
  - intros [Ha Hb] [H|H]; eauto.
Qed.

Lemma deriv_blind f r c : classes_blind_to f r → deriv (f c) r = deriv c r.
Proof.
  induction r as [| |q|a IHa b IHb|a IHa b IHb]; simpl; try done.
  - by intros ->.
  - intros [Ha Hb]. by rewrite IHa, IHb.
  - intros [Ha Hb]. by rewrite IHa, IHb.
Qed.

Lemma classes_blind_to_deriv f r c : classes_blind_to f r → classes_blind_to f (deriv c r).
Proof.
  induction r as [| |q|a IHa b IHb|a IHa b IHb]; simpl; try done.
  - intros _. by destruct (q c).
  - intros [Ha Hb]. destruct (nullable a); simpl; auto.
  - intros [Ha Hb]. auto.
Qed.

(** A pattern whose classes are blind to [f] matches [s] and [f <$> s]
    alike. *)
Lemma test_blind f r s : classes_blind_to f r → test r (f <$> s) = test r s.
Proof.
  revert r. induction s as [|c s IH]; intros r Hr; simpl; [done|].
  rewrite deriv_blind by done. by apply IH, classes_blind_to_deriv.
Qed.

End RegexMore.

Section ClassifierMore.
Import Js Regex SearchDetector Spec Extra.

Variable toLowerCase : jsstring → jsstring.
Hypothesis toLowerCase_ascii :
  ∀ s, Forall (λ c, is_ascii c = true) s → toLowerCase s = ascii_lower <$> s.

Ltac class_arith :=
  unfold ascii_lower, is_ascii, is_alpha, is_digit, SPACE, HYPHEN in *;
  repeat match goal with
         | |- context [(?a <=? ?b)%N] => destruct (N.leb_spec a b); cbn [andb orb]
         | |- context [(?a =? ?b)%N] => destruct (N.eqb_spec a b); cbn [andb orb]
         | |- context [(?a <? ?b)%N] => destruct (N.ltb_spec a b); cbn [andb orb]
         | H : context [(?a <=? ?b)%N] |- _ => destruct (N.leb_spec a b); cbn [andb orb] in H
         | H : context [(?a =? ?b)%N] |- _ => destruct (N.eqb_spec a b); cbn [andb orb] in H
         end;
  first [reflexivity | discriminate | lia | exfalso; lia].

Lemma lower_cases c :
  ascii_lower c = c ∨ ((65 ≤ c ≤ 90)%N ∧ ascii_lower c = (c + 32)%N).
Proof.
  unfold ascii_lower. destruct (N.leb_spec 65 c), (N.leb_spec c 90); simpl; auto.
Qed.

Lemma zip_patterns_ascii :
  Forall (classes_within (λ c, is_ascii c = true))
    [US_ZIP; CANADIAN_POSTAL; UK_POSTCODE; NUMERIC_POSTAL].
Proof.
  unfold US_ZIP, CANADIAN_POSTAL, UK_POSTCODE, NUMERIC_POSTAL, range, d, a.
  repeat (apply Forall_cons; split); [..|apply Forall_nil_2];
    unfold opt; cbn [classes_within every_match_has classes_blind_to times upto Nat.sub];
    repeat split; intros c Hc; class_arith.
Qed.

Lemma zip_patterns_digit :
  Forall (every_match_has (λ c, is_digit c = true))
    [US_ZIP; CANADIAN_POSTAL; UK_POSTCODE; NUMERIC_POSTAL].
Proof.
  unfold US_ZIP, CANADIAN_POSTAL, UK_POSTCODE, NUMERIC_POSTAL, range, d, a.
  repeat (apply Forall_cons; split); [..|apply Forall_nil_2];
    unfold opt; cbn [classes_within every_match_has classes_blind_to times upto Nat.sub]; eauto 10.
Qed.

Lemma zip_patterns_blind :
  Forall (classes_blind_to ascii_lower)
    [US_ZIP; CANADIAN_POSTAL; UK_POSTCODE; NUMERIC_POSTAL].
Proof.
  unfold US_ZIP, CANADIAN_POSTAL, UK_POSTCODE, NUMERIC_POSTAL, range, d, a.
  repeat (apply Forall_cons; split); [..|apply Forall_nil_2];
    unfold opt; cbn [classes_within every_match_has classes_blind_to times upto Nat.sub];
    repeat split; intros c;
    (destruct (lower_cases c) as [->|[Hr ->]]; [reflexivity|class_arith]).
Qed.

(** What a postal pattern matches is ASCII and has a digit. *)
Lemma isZipCode_shape s :
  isZipCode s = true →
  Forall (λ c, is_ascii c = true) s ∧ Exists (λ c, is_digit c = true) s.
Proof.
  pose proof zip_patterns_ascii as Ha. pose proof zip_patterns_digit as Hd.
  rewrite !Forall_cons in Ha, Hd.
  unfold isZipCode. rewrite !orb_true_iff, !test_lang.
  intros [[[H|H]|H]|H]; (split; [eapply lang_classes_within|eapply lang_every_match_has]);
    try exact H; tauto.
Qed.

Lemma regions_have_no_digit s :
  Exists (λ c, is_digit c = true) s →
  includes US_STATES s = false ∧ includes COUNTRIES s = false.
Proof.
  intros Hs.
  assert (Forall (Forall (λ c, is_digit c = false)) (US_STATES ++ COUNTRIES)) as Hall.
  { apply (bool_decide_unpack _). by vm_compute. }
  apply Forall_app in Hall as [H1 H2].
  apply Exists_exists in Hs as (c & Hin & Hc).
  unfold includes. split; apply bool_decide_eq_false_2; intros Hr.
  - eapply Forall_forall in H1; [|exact Hr]. eapply Forall_forall in H1; [|exact Hin].
    congruence.
  - eapply Forall_forall in H2; [|exact Hr]. eapply Forall_forall in H2; [|exact Hin].
    congruence.
Qed.

(** X17: no string is both a postal code and a region, for any engine: the
    order in which [detectSearchType] asks the two questions decides
    nothing. *)
Theorem isZipCode_excludes_isRegion s :
  isZipCode s = true → isRegion toLowerCase s = false.
Proof.
  intros [Ha Hd]%isZipCode_shape. unfold isRegion. rewrite toLowerCase_ascii by done.
  assert (Exists (λ c, is_digit c = true) (ascii_lower <$> s)) as Hd'.
  { apply Exists_exists in Hd as (c & Hin & Hc). apply Exists_exists.
    exists c. split; [|done]. rewrite <-(is_digit_lower c Hc).
    by apply list_elem_of_fmap_2. }
  by destruct (regions_have_no_digit _ Hd') as [-> ->].
Qed.

Lemma is_ws_lower c : is_ws (ascii_lower c) = is_ws c.
Proof.
  unfold ascii_lower.
  destruct ((65 <=? c)%N && (c <=? 90)%N) eqn:Hc; [|done].
  apply andb_true_iff in Hc as [H1%N.leb_le H2%N.leb_le].
  assert (∀ x, (33 ≤ x ≤ 159)%N → is_ws x = false) as Hrange.
  { intros x Hx. unfold is_ws.
    repeat match goal with
           | |- _ || _ = false => apply orb_false_iff; split
           | |- _ && _ = false => apply andb_false_iff
           end; rewrite ?N.eqb_neq, ?N.leb_gt; lia. }
  rewrite !Hrange by lia. done.
Qed.

Lemma trimStart_lower (s : jsstring) : trimStart (ascii_lower <$> s) = ascii_lower <$> trimStart s.
Proof.
  induction s as [|c s IH]; [done|].
  rewrite fmap_cons. cbn [trimStart]. rewrite is_ws_lower.
  destruct (is_ws c); [done|by rewrite fmap_cons].
Qed.

Lemma trimEnd_lower s : trimEnd (ascii_lower <$> s) = ascii_lower <$> trimEnd s.
Proof.
  induction s as [|c s IH]; [done|].
  rewrite fmap_cons. cbn [trimEnd]. rewrite IH, is_ws_lower.
  destruct (trimEnd s); simpl; [by destruct (is_ws c)|done].
Qed.

Lemma trim_lower s : trim (ascii_lower <$> s) = ascii_lower <$> trim s.
Proof. unfold trim. by rewrite trimStart_lower, trimEnd_lower. Qed.

Lemma lower_lower (s : jsstring) : ascii_lower <$> (ascii_lower <$> s) = ascii_lower <$> s.
Proof.
  rewrite <-list_fmap_compose. apply list_fmap_ext. intros _ c _. simpl.
  destruct (lower_cases c) as [Heq|[Hr Heq]]; rewrite Heq; [done|].
  destruct (lower_cases (c + 32)) as [Heq'|[Hr' _]]; [done|lia].
Qed.

Lemma lower_ascii (s : jsstring) :
  Forall (λ c, is_ascii c = true) s → Forall (λ c, is_ascii c = true) (ascii_lower <$> s).
Proof.
  intros H. apply Forall_fmap. eapply Forall_impl; [exact H|].
  intros c Hc. simpl. destruct (lower_cases c) as [->|[Hr ->]]; [done|class_arith].
Qed.

Lemma isZipCode_lower s : isZipCode (ascii_lower <$> s) = isZipCode s.
Proof.
  pose proof zip_patterns_blind as Hb. rewrite !Forall_cons in Hb.
  unfold isZipCode. rewrite !test_blind; tauto.
Qed.

(** The type of an ASCII string is the type of its lower-case form. *)
Lemma detectSearchType_lower s :
  Forall (λ c, is_ascii c = true) s →
  type (detectSearchType toLowerCase (JStr (ascii_lower <$> s)))
  = type (detectSearchType toLowerCase (JStr s)).
Proof.
  intros Ha. rewrite !detectSearchType_string, trim_lower, isZipCode_lower.
  assert (isRegion toLowerCase (ascii_lower <$> trim s) = isRegion toLowerCase (trim s)) as ->.
  { unfold isRegion. rewrite !toLowerCase_ascii, lower_lower; [done|..].
    - by apply Forall_trim.
    - by apply lower_ascii, Forall_trim. }
  assert (bool_decide (ascii_lower <$> trim s = []) = bool_decide (trim s = [])) as ->.
  { apply bool_decide_ext. split; [apply fmap_nil_inv|by intros ->]. }
  repeat case_match; done.
Qed.

(** X18: on ASCII input the classifier does not look at the case of
    letters: two strings that differ in case only get the same type. *)
Theorem detectSearchType_case_insensitive s s' :
  Forall (λ c, is_ascii c = true) s → Forall (λ c, is_ascii c = true) s' →
  ascii_lower <$> s = ascii_lower <$> s' →
  type (detectSearchType toLowerCase (JStr s))
  = type (detectSearchType toLowerCase (JStr s')).
Proof.
  intros Hs Hs' Heq.
  rewrite <-(detectSearchType_lower s), <-(detectSearchType_lower s') by done.
  by rewrite Heq.
Qed.

End ClassifierMore.

Lemma isZipCode_excludes_isRegion_witness :
  SearchDetector.isRegion Spec.ascii_toLowerCase (Js.js "SW1A 1AA") = false.
Proof.
  apply (isZipCode_excludes_isRegion Spec.ascii_toLowerCase (λ s _, eq_refl)
           (Js.js "SW1A 1AA")).
  vm_compute. reflexivity.
Defined.

Lemma detectSearchType_case_insensitive_witness :
  SearchDetector.type
    (SearchDetector.detectSearchType Spec.ascii_toLowerCase (Js.JStr (Js.js "NEW york")))
  = SearchDetector.type
      (SearchDetector.detectSearchType Spec.ascii_toLowerCase (Js.JStr (Js.js "New York"))).
Proof.
  apply (detectSearchType_case_insensitive Spec.ascii_toLowerCase (λ s _, eq_refl)
           (Js.js "NEW york") (Js.js "New York")).
  - apply (bool_decide_unpack _). vm_compute. reflexivity.
  - apply (bool_decide_unpack _). vm_compute. reflexivity.
  - vm_compute. reflexivity.
Defined.

(** ** The search form *)

Section SearchBarMore.
Import Js SearchDetector Spec Extra.

Variable toLowerCase : jsstring → jsstring.

(** What [handleSearch] does, by cases. *)
Lemma handleSearch_cases s :
  let q := sanitizeSearchInput (JStr (SearchBar.searchQuery s)) in
  (SearchBar.isSearching s = true ∧ SearchBar.handleSearch toLowerCase s = (s, None))
  ∨ (SearchBar.isSearching s = false ∧ length q < 2
     ∧ ∃ error, SearchBar.handleSearch toLowerCase s
                = ({| SearchBar.searchQuery := SearchBar.searchQuery s;
                      SearchBar.isSearching := false;
                      SearchBar.validationError := error |}, None))
  ∨ (SearchBar.isSearching s = false ∧ 2 ≤ length q
     ∧ SearchBar.handleSearch toLowerCase s
       = ({| SearchBar.searchQuery := SearchBar.searchQuery s;
             SearchBar.isSearching := true;
             SearchBar.validationError := [] |},
          Some {| SearchBar.query := q;
                  SearchBar.type := type (detectSearchType toLowerCase (JStr q));
                  SearchBar.originalInput := trim (SearchBar.searchQuery s) |})).
Proof.
  intros q. unfold SearchBar.handleSearch. fold q.
  destruct (SearchBar.isSearching s) eqn:Hs; [left; done|right].
  destruct (validateSearchInput (JStr q)) as [|error] eqn:Hv.
  - right. apply validateSearchInput_Valid in Hv.
    unfold q in Hv. rewrite sanitizeSearchInput_fixed in Hv. fold q in Hv.
    repeat split; [done|].
    assert (trim q = q) as Ht.
    { apply trim_fixed. apply (sanitizeSearchInput_clean (JStr (SearchBar.searchQuery s))). }
    assert (q ≠ []) as Hq by (intros Hq; rewrite Hq in Hv; simpl in Hv; lia).
    assert (value (detectSearchType toLowerCase (JStr q)) = q) as ->; [|done].
    rewrite (detectSearchType_string toLowerCase q), Ht, (bool_decide_eq_false_2 _ Hq).
    by repeat case_match.
  - left. repeat split; [|eauto].
    destruct (Nat.ltb_spec (length q) 2) as [|Hge]; [done|].
    unfold q in Hge. rewrite <-sanitizeSearchInput_fixed in Hge.
    apply validateSearchInput_Valid in Hge. fold q in Hge. congruence.
Qed.

(** X19: an event emitted by [handleSearch] carries as [query] the
    sanitized text of the input: 2 to 100 code units, none of the seven
    characters the sanitizer removes; its [type] is never [unknown], its
    [originalInput] is the trimmed text; and the form is left searching, with
    no message. *)
Theorem handleSearch_event s s' ev :
  SearchBar.handleSearch toLowerCase s = (s', Some ev) →
  SearchBar.query ev = sanitizeSearchInput (JStr (SearchBar.searchQuery s))
  ∧ 2 ≤ length (SearchBar.query ev) ≤ 100
  ∧ Forall (λ c, c ∉ [60; 62; 39; 34; 96; 59; 92]%N) (SearchBar.query ev)
  ∧ SearchBar.type ev ≠ UNKNOWN
  ∧ SearchBar.originalInput ev = trim (SearchBar.searchQuery s)
  ∧ SearchBar.isSearching s' = true ∧ SearchBar.validationError s' = [].
Proof.
  destruct (handleSearch_cases s) as [[_ H]|[(_ & _ & error & H)|(_ & Hlen & H)]];
    rewrite H; intros [= <- <-].
  cbn [SearchBar.query SearchBar.type SearchBar.originalInput SearchBar.isSearching
       SearchBar.validationError].
  destruct (sanitizeSearchInput_clean (JStr (SearchBar.searchQuery s)))
    as (Hsp & _ & Htr & Hmax).
  set (q := sanitizeSearchInput (JStr (SearchBar.searchQuery s))) in *.
  split; [done|]. split; [split; [done|exact Hmax]|].
  split; [eapply Forall_impl; [exact Hsp|]; intros c; apply is_special_list|].
  split; [|done].
  assert (q ≠ []) as Hq by (intros Hq; rewrite Hq in Hlen; simpl in Hlen; lia).
  change (type (detectSearchType toLowerCase (JStr q)) ≠ UNKNOWN).
  rewrite (detectSearchType_string toLowerCase q), (trim_fixed _ Htr),
    (bool_decide_eq_false_2 _ Hq).
  by repeat case_match.
Qed.

(** X20: [handleSearch] emits exactly when the form is not searching and
    the sanitized text has two code units or more; when it does not emit, the
    text and the searching flag are left as they were; and a second call
    right after an emitting one is ignored. *)
Theorem handleSearch_emits_iff s :
  ((∃ ev, (SearchBar.handleSearch toLowerCase s).2 = Some ev)
   ↔ SearchBar.isSearching s = false
     ∧ 2 ≤ length (sanitizeSearchInput (JStr (SearchBar.searchQuery s))))
  ∧ ((SearchBar.handleSearch toLowerCase s).2 = None →
     SearchBar.searchQuery (SearchBar.handleSearch toLowerCase s).1 = SearchBar.searchQuery s
     ∧ SearchBar.isSearching (SearchBar.handleSearch toLowerCase s).1
       = SearchBar.isSearching s)
  ∧ (∀ ev, (SearchBar.handleSearch toLowerCase s).2 = Some ev →
       SearchBar.handleSearch toLowerCase (SearchBar.handleSearch toLowerCase s).1
       = ((SearchBar.handleSearch toLowerCase s).1, None)).
Proof.
  destruct (handleSearch_cases s) as [[Hs H]|[(Hs & Hlen & error & H)|(Hs & Hlen & H)]];
    rewrite H; cbn [fst snd]; (split; [split|split]).
  - by intros [ev ?].
  - intros [? _]. congruence.
  - done.
  - done.
  - by intros [ev ?].
  - intros [_ ?]. lia.
  - done.
  - done.
  - done.
  - eauto.
  - done.
  - intros ev _. reflexivity.
Qed.

End SearchBarMore.

Lemma handleSearch_emits_iff_witness :
  ∃ ev, (SearchBar.handleSearch Spec.ascii_toLowerCase
           {| SearchBar.searchQuery := Js.js "94102"; SearchBar.isSearching := false;
              SearchBar.validationError := [] |}).2 = Some ev.
Proof.
  apply (proj2 (proj1 (handleSearch_emits_iff Spec.ascii_toLowerCase
           {| SearchBar.searchQuery := Js.js "94102"; SearchBar.isSearching := false;
              SearchBar.validationError := [] |}))).
  split; [reflexivity|]. vm_compute. lia.
Defined.

Lemma handleSearch_event_witness :
  SearchBar.query
    {| SearchBar.query := Js.js "Oslo"; SearchBar.type := SearchDetector.CITY;
       SearchBar.originalInput := Js.js "Oslo <b>" |}
  = SearchDetector.sanitizeSearchInput (Js.JStr (Js.js " Oslo <b> ")).
Proof.
  apply (handleSearch_event Spec.ascii_toLowerCase
           {| SearchBar.searchQuery := Js.js " Oslo <b> "; SearchBar.isSearching := false;
              SearchBar.validationError := [] |}
           {| SearchBar.searchQuery := Js.js " Oslo <b> "; SearchBar.isSearching := true;
              SearchBar.validationError := [] |}).
  vm_compute. reflexivity.
Defined.

(** ** The icon address *)

Section IconUrl.
Import Js WeatherApi HourlyForecast.

(** X21: on every string [getIconUrl] returns a string that starts neither
    with [//] nor with [http://]; a string that starts with neither is
    returned as it is, so applying [getIconUrl] twice is applying it once. *)
Theorem getIconUrl_secure (u : jsstring) :
  ∃ r, getIconUrl (JStr u) = Return r
       ∧ startsWith (js "//") r = false
       ∧ startsWith (js "http://") r = false
       ∧ getIconUrl (JStr r) = Return r
       ∧ (startsWith (js "//") u = false → startsWith (js "http://") u = false → r = u).
Proof.
  assert (∀ r : jsstring, startsWith (js "//") r = false →
            startsWith (js "http://") r = false → getIconUrl (JStr r) = Return r) as Hfix.
  { intros r H1 H2. unfold getIconUrl. rewrite H1, H2. simpl.
    destruct r; simpl; done. }
  unfold getIconUrl. simpl truthy.
  destruct (decide (u = [])) as [->|Hu].
  { exists []. by repeat split. }
  rewrite (bool_decide_eq_false_2 _ Hu). simpl negb. cbv iota.
  destruct (startsWith (js "//") u) eqn:H1.
  { exists (js "https:" ++ u). split; [done|].
    assert (startsWith (js "//") (js "https:" ++ u) = false) as E1 by reflexivity.
    assert (startsWith (js "http://") (js "https:" ++ u) = false) as E2 by reflexivity.
    split; [exact E1|]. split; [exact E2|]. split; [by apply Hfix|].
    intros ?. congruence. }
  destruct (startsWith (js "http://") u) eqn:H2.
  { exists (js "https://" ++ drop 7 u).
    assert (replace_first (js "http://") (js "https://") u = js "https://" ++ drop 7 u) as ->.
    { destruct u; simpl; [done|]. fold (startsWith (js "http://") (n :: u)).
      by rewrite H2. }
    assert (startsWith (js "//") (js "https://" ++ drop 7 u) = false) as E1 by reflexivity.
    assert (startsWith (js "http://") (js "https://" ++ drop 7 u) = false) as E2
      by reflexivity.
    split; [done|]. split; [exact E1|]. split; [exact E2|]. split; [by apply Hfix|].
    intros _ ?. congruence. }
  exists u. split; [done|]. split; [done|]. split; [done|]. split; [by apply Hfix|done].
Qed.

Lemma getIconUrl_secure_witness :
  ∃ r, getIconUrl (JStr (js "http://cdn.weatherapi.com/weather/64x64/day/113.png")) = Return r
       ∧ startsWith (js "http://") r = false.
Proof.
  destruct (getIconUrl_secure (js "http://cdn.weatherapi.com/weather/64x64/day/113.png"))
    as (r & Hr & _ & Hs & _).
  exists r. by split.
Defined.

End IconUrl.
